(** * TickTTY renderers: a shallow embedding of [src/renderers/index.ts]

    The development follows the TypeScript renderer module: the
    duration/time formatters, the analog face, the font-metrics and
    glyph-block caches, the block-digit renderer and the layout engine
    [render].  Of the legacy JavaScript module [src/renderers/index.js]
    only the order of the hands is modelled, where it differs.

    JavaScript strings are sequences of UTF-16 code units, so a string is
    a [list N] here and [length] is JavaScript's [.length].  Numbers that
    the code only ever uses as integers (milliseconds, seconds, rows,
    columns, widths) are [Z]. *)

From Stdlib Require Import ZArith QArith Qround Lia String Ascii.
From stdpp Require Import base tactics option list numbers countable gmap.

#[local] Open Scope Z_scope.

(** ** JavaScript strings *)

Module JS.

Abbreviation codeunit := N.
Abbreviation str := (list N).

(** An ASCII literal of the source as a JavaScript string. *)
Definition lit (s : string) : str :=
  List.map N_of_ascii (list_ascii_of_string s).

Definition LF : codeunit := 10%N.
Definition SPACE : codeunit := 32%N.
Definition COLON : codeunit := 58%N.
Definition MINUS : codeunit := 45%N.
Definition ZERO : codeunit := 48%N.
Definition ESC : codeunit := 27%N.
Definition BEL : codeunit := 7%N.
Definition CSI : codeunit := 155%N.

(** [" ".repeat(n)]; the callers clamp [n] at zero first. *)
Definition spaces (n : Z) : str := replicate (Z.to_nat n) SPACE.

(** [s.split(sep)] for a one-unit separator: never the empty array. *)
Fixpoint split (sep : codeunit) (s : str) : list str :=
  match s with
  | [] => [[]]
  | c :: t =>
      if N.eqb c sep then [] :: split sep t
      else match split sep t with
           | h :: r => (c :: h) :: r
           | [] => [[c]]
           end
  end.

(** [rows.join(sep)]. *)
Fixpoint join (sep : str) (rows : list str) : str :=
  match rows with
  | [] => []
  | [r] => r
  | r :: rest => r ++ sep ++ join sep rest
  end.

(** [hay.includes(needle)] and [hay.startsWith(needle)]. *)
Fixpoint startsWith (needle hay : str) : bool :=
  match needle, hay with
  | [], _ => true
  | _ :: _, [] => false
  | a :: n', b :: h' => N.eqb a b && startsWith n' h'
  end.

Fixpoint includes (needle hay : str) : bool :=
  startsWith needle hay ||
  match hay with
  | [] => false
  | _ :: h' => includes needle h'
  end.

(** [Math.max(...xs)] on a non-empty array (every call site spreads the
    result of a [split] or a [map] over one, which is never empty; on the
    empty array JavaScript gives [-Infinity], which has no [Z]). *)
Definition Math_max (xs : list Z) : Z :=
  match xs with
  | [] => 0
  | x :: rest => foldl Z.max x rest
  end.

(** Decimal digits of a non-negative integer, most significant first. *)
Fixpoint digitsOf (fuel : nat) (n : Z) (acc : str) : str :=
  match fuel with
  | O => acc
  | S f =>
      let acc' := Z.to_N (48 + n mod 10) :: acc in
      if n <? 10 then acc' else digitsOf f (n / 10) acc'
  end.

(** [n.toString()] for an integer [n] (plain decimal notation, which is
    what JavaScript prints for integers below 10^21). *)
Definition toString (n : Z) : str :=
  if n <? 0 then MINUS :: digitsOf (S (Z.to_nat (Z.log2 (- n)))) (- n) []
  else digitsOf (S (Z.to_nat (Z.log2 n))) n [].

(** [s.padStart(width, "0")]. *)
Definition padStart (width : Z) (s : str) : str :=
  replicate (Z.to_nat (width - Z.of_nat (length s))) ZERO ++ s.

(** [Math.ceil(a / b)] for integers [a] and [b > 0]: the quotient of two
    safe integers is correctly rounded, hence never crosses an integer,
    and its ceiling is the exact one. *)
Definition ceilDiv (a b : Z) : Z := - ((- a) / b).

End JS.

Import JS.

(** ** Time/duration formatter *)

(** The template literal shared by [formatDuration] and [formatTime]. *)
Definition hhmmss (hours minutes seconds : Z) : str :=
  padStart 2 (toString hours) ++ [COLON] ++
  padStart 2 (toString minutes) ++ [COLON] ++
  padStart 2 (toString seconds).

(** [formatDuration(ms)]: [%] is JavaScript's truncating remainder,
    [Math.floor(a / b)] on integers is floor division. *)
Definition formatDuration (ms : Z) : str :=
  let totalSeconds := ceilDiv ms 1000 in
  let seconds := Z.rem totalSeconds 60 in
  let minutes := Z.rem (totalSeconds / 60) 60 in
  let hours := totalSeconds / 3600 in
  hhmmss hours minutes seconds.

(** The part of a [Date] the renderers read. *)
Record Date := mkDate { getHours : Z; getMinutes : Z; getSeconds : Z }.

Definition formatTime (date : Date) : str :=
  hhmmss (getHours date) (getMinutes date) (getSeconds date).

(** Reading a rendered duration back, as the specification's
    [parseBackToSeconds] does: the three fields are decimal numbers of
    hours, minutes and seconds. *)
Definition parseNat (s : str) : Z :=
  foldl (fun a c => 10 * a + (Z.of_N c - 48)) 0 s.

Definition parseBackToSeconds (s : str) : option Z :=
  match split COLON s with
  | [h; m; sec] => Some (3600 * parseNat h + 60 * parseNat m + parseNat sec)
  | _ => None
  end.

(** ** External collaborators

    The module draws on chalk (styling), strip-ansi (visible text),
    figlet (large-font art), the terminal size and IEEE doubles for the
    trigonometry of the analog face.  None of them is part of the
    repository: they are interfaces here, and every property below holds
    for each implementation of them. *)

(** The chalk style chains the module applies. *)
Inductive Style :=
  | white_bold | gray | dim | blue | green_bold | red_bold | white
  | cyan | bgRed_white_bold | yellow | green | bold | bold_bgBlack_white.

Class Styling := {
  chalk : Style -> str -> str;
  stripAnsi : str -> str;
}.

(** [figlet.textSync(text, { font })], deterministic in both arguments. *)
Class Figlet := { textSync : str -> str -> str }.

(** The double-precision operations of the analog face.  [num q] is the
    double of a literal or of a value that is exact in binary
    ([r += 0.5] only ever produces such values). *)
Class Float64 := {
  float : Type;
  num : Q -> float;
  fadd : float -> float -> float;
  fsub : float -> float -> float;
  fmul : float -> float -> float;
  fdiv : float -> float -> float;
  Math_PI : float;
  Math_sin : float -> float;
  Math_cos : float -> float;
  Math_round : float -> Z;
}.

Definition numZ `{Float64} (z : Z) : float := num (inject_Z z).

(** [termSize.getSize()]: [process.stdout.rows || 24] and
    [process.stdout.columns || 80]; [undefined] and [0] are falsy. *)
Record Size := mkSize { rows : Z; columns : Z }.

Definition orDefault (v : option Z) (d : Z) : Z :=
  match v with
  | Some n => if n =? 0 then d else n
  | None => d
  end.

Definition getSize (stdoutRows stdoutColumns : option Z) : Size :=
  {| rows := orDefault stdoutRows 24; columns := orDefault stdoutColumns 80 |}.

(** ** Analog-face renderer *)

(** [Date | number]. *)
Inductive DateOrMs :=
  | ADate (date : Date)
  | AMs (ms : Z).

Definition isNumber (data : DateOrMs) : bool :=
  match data with AMs _ => true | ADate _ => false end.

Record CharSet := mkCharSet {
  dialHour : str; dialMinute : str; dialOther : str;
  handHour : str; handMinute : str; handSecond : str;
  center : str;
}.

(** Nerd Font glyphs when enabled, standard block elements otherwise. *)
Definition charsFor (useGlyphs : bool) : CharSet :=
  if useGlyphs then
    {| dialHour := [0xf111%N]; dialMinute := [0xf192%N];
       dialOther := [0xb7%N];
       handHour := [0x2588%N]; handMinute := [0xf111%N];
       handSecond := [0xf192%N]; center := [0xf017%N] |}
  else
    {| dialHour := [0x25cf%N]; dialMinute := [0x2022%N];
       dialOther := [0xb7%N];
       handHour := [0x2588%N]; handMinute := [0x25cf%N];
       handSecond := [0xb7%N]; center := [0x2295%N] |}.

Definition radius : Z := 21.
Definition sizeY : Z := 45.
Definition sizeX : Z := 90.
Definition centerY : Z := sizeY / 2.
Definition centerX : Z := sizeX / 2.

Abbreviation Board := (list (list str)).

Definition emptyBoard : Board :=
  replicate (Z.to_nat sizeY) (replicate (Z.to_nat sizeX) [SPACE]).

Definition inBoard (y x : Z) : bool :=
  (0 <=? y) && (y <? sizeY) && (0 <=? x) && (x <? sizeX).

(** [board[y][x] = v] for indices inside the board. *)
Definition setCell (y x : Z) (v : str) (board : Board) : Board :=
  alter (fun row => <[Z.to_nat x := v]> row) (Z.to_nat y) board.

Definition cellAt (board : Board) (y x : nat) : option str :=
  board !! y ≫= fun row => row !! x.

(** The hours, minutes and seconds the hands show. *)
Definition handTime (dateOrMs : DateOrMs) (isTimer : bool) : Z * Z * Z :=
  match isTimer, dateOrMs with
  | true, AMs ms =>
      let totalSeconds := ceilDiv ms 1000 in
      (Z.rem (totalSeconds / 3600) 12,
       Z.rem (totalSeconds / 60) 60,
       Z.rem totalSeconds 60)
  | false, ADate date =>
      (Z.rem (getHours date) 12, getMinutes date, getSeconds date)
  | _, _ => (0, 0, 0)
  end.

(** The values of [r] in [for (let r = 0; r <= handLength; r += 0.5)]:
    the multiples of one half up to [handLength]. *)
Definition halfSteps (handLength : Q) : list Q :=
  (fun k => inject_Z k / 2)%Q <$> seqZ 0 (Qfloor (2 * handLength) + 1).

Section Analog.
Context `{Styling} `{Float64}.

(** [Math.round(c + Math.sin(angle) * r)] and
    [Math.round(c + Math.cos(angle) * r * 2)]. *)
Definition gridY (angle r : float) : Z :=
  Math_round (fadd (numZ centerY) (fmul (Math_sin angle) r)).

Definition gridX (angle r : float) : Z :=
  Math_round (fadd (numZ centerX) (fmul (fmul (Math_cos angle) r) (numZ 2))).

Definition degrees (d : Z) : float :=
  fmul (numZ d) (fdiv Math_PI (numZ 180)).

Definition dialGlyph (chars : CharSet) (r : Z) : str :=
  if Z.rem r 30 =? 0 then chalk white_bold (dialHour chars)
  else if Z.rem r 6 =? 0 then chalk gray (dialMinute chars)
  else chalk dim (dialOther chars).

Definition drawDialStep (chars : CharSet) (board : Board) (r : Z) : Board :=
  let rad := degrees r in
  let y := gridY rad (numZ radius) in
  let x := gridX rad (numZ radius) in
  if inBoard y x then setCell y x (dialGlyph chars r) board else board.

(** [for (let r = 0; r < 360; r += 2)]. *)
Definition drawDial (chars : CharSet) (board : Board) : Board :=
  foldl (drawDialStep chars) board ((fun k => 2 * k) <$> seqZ 0 180).

Definition numbers : list Z := [3; 4; 5; 6; 7; 8; 9; 10; 11; 12; 1; 2].

Definition drawNumberStep (board : Board) (entry : Z * Z) : Board :=
  let '(i, n) := entry in
  let rad := degrees (i * 30) in
  let numR := radius - 2 in
  let y := gridY rad (numZ numR) in
  let x := gridX rad (numZ numR) in
  if inBoard y x then
    if 9 <? n then
      let board1 :=
        if 0 <? x then setCell y (x - 1) (toString (n / 10)) board
        else board in
      setCell y x (toString (Z.rem n 10)) board1
    else setCell y x (toString n) board
  else board.

(** [numbers.forEach((num, i) => ...)]. *)
Definition drawNumbers (board : Board) : Board :=
  foldl drawNumberStep board (zip (seqZ 0 12) numbers).

Definition handAngle (value : float) (total : Z) : float :=
  fsub (fmul (fmul (fdiv value (numZ total)) (numZ 2)) Math_PI)
       (fdiv Math_PI (numZ 2)).

Definition drawHandStep (angle : float) (glyph : str) (board : Board)
    (r : Q) : Board :=
  let y := gridY angle (num r) in
  let x := gridX angle (num r) in
  if inBoard y x then setCell y x glyph board else board.

Definition drawHand (value : float) (total : Z) (lengthRatio : Q)
    (char : str) (colorFunc : Style) (board : Board) : Board :=
  let angle := handAngle value total in
  let handLength := (inject_Z radius * lengthRatio)%Q in
  foldl (drawHandStep angle (chalk colorFunc char)) board
        (halfSteps handLength).

Definition hourValue (hours minutes : Z) : float :=
  fadd (numZ hours) (fdiv (numZ minutes) (numZ 60)).

(** The board just before the centre is written. *)
Definition drawHands (chars : CharSet) (hms : Z * Z * Z) (board : Board)
    : Board :=
  let '(hours, minutes, seconds) := hms in
  let b1 := drawHand (numZ seconds) 60 (9 # 10) (handSecond chars) blue board in
  let b2 := drawHand (numZ minutes) 60 (3 # 4) (handMinute chars) green_bold b1 in
  drawHand (hourValue hours minutes) 12 (1 # 2) (handHour chars) red_bold b2.

(** The legacy JavaScript renderer ([src/renderers/index.js]) draws the
    same three hands with fixed characters in the opposite order: hour,
    then minute, then second. *)
Definition drawHandsLegacy (hms : Z * Z * Z) (board : Board) : Board :=
  let '(hours, minutes, seconds) := hms in
  let b1 := drawHand (hourValue hours minutes) 12 (1 # 2) [0x2588%N] red_bold board in
  let b2 := drawHand (numZ minutes) 60 (3 # 4) [0x25cf%N] green_bold b1 in
  drawHand (numZ seconds) 60 (9 # 10) [46%N] blue b2.

Definition analogBoard (dateOrMs : DateOrMs) (isTimer useGlyphs : bool)
    : Board :=
  let chars := charsFor useGlyphs in
  let b := drawNumbers (drawDial chars emptyBoard) in
  let b := drawHands chars (handTime dateOrMs isTimer) b in
  setCell centerY centerX (chalk white (center chars)) b.

Definition getAnalogClock (dateOrMs : DateOrMs) (isTimer useGlyphs : bool)
    : str :=
  join [LF] ((fun row => concat row) <$> analogBoard dateOrMs isTimer useGlyphs).
End Analog.

(** ** Glyph-metrics cache and block-digit renderer *)

Record FontMetrics := mkMetrics {
  blockWidth : Z;
  sepWidth : Z;
  height : Z;
}.

(** The two module-level caches, and (ghost) the calls made to
    [figlet.textSync] so far, latest first.  The caches are plain objects
    keyed by font name and by text; their keys are names of installed
    figlet fonts and time fields, none of which is a property inherited
    from [Object.prototype], so they are finite maps. *)
Record Caches := mkCaches {
  fontMetricsCache : gmap str FontMetrics;
  digitCache : gmap str (gmap str (list str));
  figletCalls : list (str * str);
}.

Definition noCaches : Caches :=
  {| fontMetricsCache := ∅; digitCache := ∅; figletCalls := [] |}.

(** Computations over the caches. *)
Definition M (A : Type) : Type := Caches -> A * Caches.

#[global] Instance M_ret : MRet M := fun A a st => (a, st).
#[global] Instance M_bind : MBind M :=
  fun A B f m st => let '(a, st') := m st in f a st'.

Definition lenZ {A : Type} (l : list A) : Z := Z.of_nat (length l).

Section Digital.
Context `{Figlet}.

(** One call of [figlet.textSync(text, { font })]. *)
Definition figlet (text font : str) : M str := fun st =>
  (textSync text font,
   {| fontMetricsCache := fontMetricsCache st;
      digitCache := digitCache st;
      figletCalls := (text, font) :: figletCalls st |}).

(** The body of [for (let i = 0; i <= 59; i++)], on the pair
    [(maxBlockWidth, height)]. *)
Definition measureStep (font : str) (acc : Z * Z) (i : Z) : M (Z * Z) :=
  let numStr := padStart 2 (toString i) in
  art ← figlet numStr font;
  let lines := split LF art in
  let height := Z.max (snd acc) (lenZ lines) in
  let width := Math_max (lenZ <$> lines) in
  mret (Z.max (fst acc) width, height).

Fixpoint measureLoop (font : str) (acc : Z * Z) (todo : list Z) : M (Z * Z) :=
  match todo with
  | [] => mret acc
  | i :: rest => acc' ← measureStep font acc i; measureLoop font acc' rest
  end.

(** [getFontMetrics] after a cache miss. *)
Definition measureFont (font : str) : M FontMetrics :=
  acc ← measureLoop font (0, 0) (seqZ 0 60);
  sepArt ← figlet [COLON] font;
  let sepLines := split LF sepArt in
  let sepWidth := Math_max (lenZ <$> sepLines) in
  let height := Z.max (snd acc) (lenZ sepLines) in
  mret {| blockWidth := fst acc; sepWidth := sepWidth; height := height |}.

Definition getFontMetrics (font : str) : M FontMetrics := fun st =>
  match fontMetricsCache st !! font with
  | Some metrics => (metrics, st)
  | None =>
      let '(metrics, st') := measureFont font st in
      (metrics,
       {| fontMetricsCache := <[font := metrics]> (fontMetricsCache st');
          digitCache := digitCache st';
          figletCalls := figletCalls st' |})
  end.

(** [getCachedBlock(str)] of [getDigitalClock]. *)
Definition getCachedBlock (font s : str) : M (list str) := fun st =>
  let byFont := default ∅ (digitCache st !! font) in
  match byFont !! s with
  | Some lines =>
      (lines,
       {| fontMetricsCache := fontMetricsCache st;
          digitCache := <[font := byFont]> (digitCache st);
          figletCalls := figletCalls st |})
  | None =>
      let lines := split LF (textSync s font) in
      (lines,
       {| fontMetricsCache := fontMetricsCache st;
          digitCache := <[font := <[s := lines]> byFont]> (digitCache st);
          figletCalls := (s, font) :: figletCalls st |})
  end.

(** One row of [padBlockLines]. *)
Definition padLine (line : str) (targetWidth : Z) : str :=
  let padding := Z.max 0 (targetWidth - lenZ line) in
  let leftPad := padding / 2 in
  spaces leftPad ++ line ++ spaces (Z.max 0 (padding - leftPad)).

(** [padBlockLines(lines, targetWidth)]: [lines[i] || ""] for each row
    index below the height. *)
Definition padBlockLines (metrics : FontMetrics) (lines : list str)
    (targetWidth : Z) : list str :=
  (fun i => padLine (default [] (lines !! i)) targetWidth)
    <$> seq 0 (Z.to_nat (height metrics)).

(** [a[i]] inside a string concatenation: [undefined] prints as such. *)
Definition rowAt (block : list str) (i : nat) : str :=
  default (lit "undefined") (block !! i).

Definition digitalRows (hBlock mBlock sBlock sepBlock : list str) : list str :=
  imap (fun i line =>
          line ++ rowAt sepBlock i ++ rowAt mBlock i ++
          rowAt sepBlock i ++ rowAt sBlock i) hBlock.

(** [getDigitalClock(text, font)]; a missing field of [text] is
    [undefined], which names the property ["undefined"]. *)
Definition getDigitalClock (text font : str) : M str :=
  metrics ← getFontMetrics font;
  let parts := split COLON text in
  hLines ← getCachedBlock font (rowAt parts 0);
  mLines ← getCachedBlock font (rowAt parts 1);
  sLines ← getCachedBlock font (rowAt parts 2);
  sepLines ← getCachedBlock font [COLON];
  let hBlock := padBlockLines metrics hLines (blockWidth metrics) in
  let mBlock := padBlockLines metrics mLines (blockWidth metrics) in
  let sBlock := padBlockLines metrics sLines (blockWidth metrics) in
  let sepBlock := padBlockLines metrics sepLines (sepWidth metrics) in
  mret (join [LF] (digitalRows hBlock mBlock sBlock sepBlock)).

End Digital.

(** ** Layout engine *)

Definition DIGITAL : str := lit "digital".
Definition ANALOG : str := lit "analog".
Definition TEXT : str := lit "text".

Section Render.
Context `{Styling} `{Figlet} `{Float64}.

(** The display text: [formatDuration] for a number, [formatTime] for a
    [Date]. *)
Definition displayText (data : DateOrMs) : str :=
  match data with
  | AMs ms => formatDuration ms
  | ADate date => formatTime date
  end.

(** The label line and the pause banner; [if (label)] skips [null] and
    the empty string. *)
Definition contentHeader (label : option str) (isPaused : bool) : str :=
  match label with
  | Some l => if bool_decide (l = []) then [] else chalk cyan l ++ [LF]
  | None => []
  end ++
  (if isPaused then chalk bgRed_white_bold (lit " PAUSED ") ++ [LF] else []).

Definition digitalWarning (font : str) (requiredWidth requiredHeight : Z)
    : str :=
  lit "Terminal too small for digital clock with font '" ++ font ++
  lit "' (needs " ++ toString requiredWidth ++ lit "x" ++
  toString requiredHeight ++ lit "), switching to text." ++ [LF].

Definition analogWarning : str :=
  lit "Terminal too small for large analog clock (needs 90x45), switching to text."
  ++ [LF].

(** The fit check on the requested style: the warning appended to the
    content, if any, and the effective style. *)
Definition styleFit (size : Size) (style font : str) : M (option str * str) :=
  if bool_decide (style = DIGITAL) then
    metrics ← getFontMetrics font;
    let requiredWidth := blockWidth metrics * 3 + sepWidth metrics * 2 in
    let requiredHeight := height metrics in
    if (columns size <? requiredWidth) || (rows size <? requiredHeight + 2)
    then mret (Some (chalk yellow
                       (digitalWarning font requiredWidth requiredHeight)),
               TEXT)
    else mret (None, style)
  else if bool_decide (style = ANALOG) then
    if (columns size <? 90) || (rows size <? 45)
    then mret (Some (chalk yellow analogWarning), TEXT)
    else mret (None, style)
  else mret (None, style).

(** The body for the effective style. *)
Definition renderBody (data : DateOrMs) (effectiveStyle text font : str)
    (useGlyphs : bool) : M str :=
  if bool_decide (effectiveStyle = DIGITAL) then
    art ← getDigitalClock text font;
    mret (chalk green art ++ chalk dim ([LF] ++ lit "Font: " ++ font))
  else if bool_decide (effectiveStyle = ANALOG) then
    mret (getAnalogClock data (isNumber data) useGlyphs ++ [LF] ++
          chalk bold text)
  else mret (chalk bold_bgBlack_white (lit "  " ++ text ++ lit "  ")).

(** The content block of one frame. *)
Definition renderContent (data : DateOrMs) (style : str) (label : option str)
    (font : str) (isPaused useGlyphs : bool) (size : Size) : M str :=
  fit ← styleFit size style font;
  body ← renderBody data (snd fit) (displayText data) font useGlyphs;
  mret (contentHeader label isPaused ++ default [] (fst fit) ++ body).

Definition footerText (style : str) (isTimer useGlyphs : bool) : str :=
  lit "q: Quit | d: Digital | a: Analog | t: Text" ++
  (if bool_decide (style = DIGITAL) then lit " | f: Cycle Font"
   else if bool_decide (style = ANALOG) then
     lit " | g: Glyphs (" ++ (if useGlyphs then lit "ON" else lit "OFF") ++
     lit ")"
   else []) ++
  (if isTimer then lit " | r: Reset | space: Start/Pause" else []).

Definition visibleLength (s : str) : Z := lenZ (stripAnsi s).

(** One content line of the frame, with its left padding. *)
Definition placeLine (blockLeftPad maxContentWidth : Z) (line : str)
    (lineLen : Z) : str :=
  let relativePad := (maxContentWidth - lineLen) / 2 in
  let totalPad := Z.max 0 (blockLeftPad + relativePad) in
  spaces totalPad ++ line.

Definition footerLine (size : Size) (footer : str) : str :=
  let footerPad := (columns size - visibleLength footer) / 2 in
  spaces (Z.max 0 footerPad) ++ chalk dim footer.

(** Centering of the content block and the footer: the string handed to
    [logUpdate]. *)
Definition layout (size : Size) (content footer : str) : str :=
  let lines := split LF content in
  let contentHeight := lenZ lines in
  let lineWidths := visibleLength <$> lines in
  let maxContentWidth := Math_max lineWidths in
  let footerHeight := 1 in
  let topPad := (rows size - footerHeight - contentHeight) / 2 in
  let blockLeftPad := (columns size - maxContentWidth) / 2 in
  let usedLines := Z.max 0 topPad + lenZ lines in
  let bottomPad := rows size - footerHeight - usedLines in
  replicate (Z.to_nat (Z.max 0 topPad)) LF ++
  concat (zip_with (fun line lineLen =>
                      placeLine blockLeftPad maxContentWidth line lineLen
                      ++ [LF]) lines lineWidths) ++
  replicate (Z.to_nat (Z.max 0 bottomPad)) LF ++
  footerLine size footer.

(** [render(data, style, label, font, isPaused, useGlyphs)] with the
    terminal size it reads; the result is the frame it repaints. *)
Definition render (data : DateOrMs) (style : str) (label : option str)
    (font : str) (isPaused useGlyphs : bool) (size : Size) : M str :=
  content ← renderContent data style label font isPaused useGlyphs size;
  mret (layout size content (footerText style (isNumber data) useGlyphs)).

End Render.

(** ** The application state ([src/TimerApp.ts]) and its keys
    ([src/index.ts])

    Every method is a function of the state and of the clock reading it
    takes ([Date.now()], [new Date()]), returning the new state and what
    it did to the outside, in order.  The intervals the Node runtime has
    scheduled are part of the state, so that what [setInterval] and
    [clearInterval] do is visible. *)

Module App.

Inductive TimerMode := clock | timer.

Inductive Escape :=
  | cursorHide | enterAlternateScreen | cursorShow | leaveAlternateScreen.

Inductive Effect :=
  | Render (data : DateOrMs) (style : str) (label : option str)
           (font : option str) (isPaused useGlyphs : bool)
  | SaveConfig (style : str) (fontIndex : Z) (useGlyphs : bool)
  | Write (code : Escape)
  | LogUpdateDone
  | Notify (message : str)
  | ConsoleError (message : str)
  | Exit (code : Z).

Record State := mkState {
  style : str;
  fontIndex : Z;
  useGlyphs : bool;
  fonts : list str;
  label : str;
  mode : TimerMode;
  interval : option nat;
  endTime : Z;
  isPaused : bool;
  remainingMs : Z;
  (* the runtime: handles of the intervals still scheduled, next handle *)
  scheduled : list nat;
  nextHandle : nat;
}.

(** [new TimerApp(options)]; [options.label ?? "Timer"]. *)
Definition new (style0 : str) (fontIndex0 : Z) (useGlyphs0 : bool)
    (label0 : option str) (fonts0 : list str) : State :=
  {| style := style0; fontIndex := fontIndex0; useGlyphs := useGlyphs0;
     fonts := fonts0; label := default (lit "Timer") label0;
     mode := clock; interval := None; endTime := 0; isPaused := false;
     remainingMs := 0; scheduled := []; nextHandle := 0 |}.

Definition setConfig (a : State) (style' : str) (fontIndex' : Z)
    (useGlyphs' : bool) : State :=
  {| style := style'; fontIndex := fontIndex'; useGlyphs := useGlyphs';
     fonts := fonts a; label := label a; mode := mode a;
     interval := interval a; endTime := endTime a; isPaused := isPaused a;
     remainingMs := remainingMs a; scheduled := scheduled a;
     nextHandle := nextHandle a |}.

Definition setTimer (a : State) (mode' : TimerMode) (endTime' : Z)
    (isPaused' : bool) (remainingMs' : Z) : State :=
  {| style := style a; fontIndex := fontIndex a; useGlyphs := useGlyphs a;
     fonts := fonts a; label := label a; mode := mode';
     interval := interval a; endTime := endTime'; isPaused := isPaused';
     remainingMs := remainingMs'; scheduled := scheduled a;
     nextHandle := nextHandle a |}.

(** [clearInterval(handle)]. *)
Definition clearInterval (handle : nat) (a : State) : State :=
  {| style := style a; fontIndex := fontIndex a; useGlyphs := useGlyphs a;
     fonts := fonts a; label := label a; mode := mode a;
     interval := interval a; endTime := endTime a; isPaused := isPaused a;
     remainingMs := remainingMs a;
     scheduled := filter (fun h => h ≠ handle) (scheduled a);
     nextHandle := nextHandle a |}.

(** [this.interval = setInterval(() => this.tick(), 100)]. *)
Definition setIntervalTick (a : State) : State :=
  {| style := style a; fontIndex := fontIndex a; useGlyphs := useGlyphs a;
     fonts := fonts a; label := label a; mode := mode a;
     interval := Some (nextHandle a); endTime := endTime a;
     isPaused := isPaused a; remainingMs := remainingMs a;
     scheduled := nextHandle a :: scheduled a;
     nextHandle := S (nextHandle a) |}.

(** [if (this.interval) clearInterval(this.interval)]. *)
Definition cleanup (a : State) : State :=
  match interval a with
  | Some handle => clearInterval handle a
  | None => a
  end.

(** [this.fonts[this.fontIndex]]: [undefined] outside the array. *)
Definition currentFont (a : State) : option str :=
  if 0 <=? fontIndex a then fonts a !! Z.to_nat (fontIndex a) else None.

Definition initDisplay : list Effect :=
  [Write cursorHide; Write enterAlternateScreen].

Definition cleanupDisplay : list Effect :=
  [Write cursorShow; Write leaveAlternateScreen].

Definition saveState (a : State) : list Effect :=
  [SaveConfig (style a) (fontIndex a) (useGlyphs a)].

Definition startClock (a : State) : State * list Effect :=
  let a := cleanup a in
  let a := setTimer a clock (endTime a) (isPaused a) (remainingMs a) in
  (setIntervalTick a, initDisplay).

Definition startTimer (durationMs now : Z) (a : State) : State * list Effect :=
  let a := cleanup a in
  let a := setTimer a timer (now + durationMs) false (remainingMs a) in
  (setIntervalTick a, initDisplay).

Definition finish (a : State) : State * list Effect :=
  let a' := cleanup a in
  (a',
   [Render (AMs 0) (style a) (Some (label a)) (currentFont a) false
      (useGlyphs a);
    LogUpdateDone] ++
   cleanupDisplay ++
   [Notify (label a ++ lit " finished!"); Exit 0]).

(** One firing of the interval; [now] is [Date.now()] and [date] is
    [new Date()]. *)
Definition tick (now : Z) (date : Date) (a : State) : State * list Effect :=
  match mode a, isPaused a with
  | timer, false =>
      let remaining := endTime a - now in
      if remaining <=? 0 then finish a
      else (a, [Render (AMs remaining) (style a) (Some (label a))
                  (currentFont a) false (useGlyphs a)])
  | clock, _ =>
      (a, [Render (ADate date) (style a) None (currentFont a) false
             (useGlyphs a)])
  | timer, true => (a, [])
  end.

Definition togglePause (now : Z) (a : State) : State * list Effect :=
  match mode a with
  | clock => (a, [])
  | timer =>
      if isPaused a then
        let a := setTimer a (mode a) (endTime a) false (remainingMs a) in
        startTimer (remainingMs a) now a
      else
        let a := setTimer a (mode a) (endTime a) true (endTime a - now) in
        let a := cleanup a in
        (a, [Render (AMs (remainingMs a)) (style a) (Some (lit "PAUSED"))
               (currentFont a) true (useGlyphs a)])
  end.

Definition resetTimer (durationMs now : Z) (a : State) : State * list Effect :=
  match mode a with
  | timer => startTimer durationMs now a
  | clock => (a, [])
  end.

Definition setStyle (newStyle : str) (a : State) : State * list Effect :=
  if bool_decide (style a = newStyle) then (a, [])
  else
    let a := setConfig a newStyle (fontIndex a) (useGlyphs a) in
    (a, saveState a).

(** [%] is the truncating remainder; [fonts.length] is not zero for the
    application's font list. *)
Definition cycleFont (a : State) : State * list Effect :=
  if bool_decide (style a = DIGITAL) then
    let a :=
      setConfig a (style a)
        (Z.rem (fontIndex a + 1) (Z.of_nat (length (fonts a))))
        (useGlyphs a) in
    (a, saveState a)
  else (a, []).

Definition toggleGlyphs (a : State) : State * list Effect :=
  if bool_decide (style a = ANALOG) then
    let a := setConfig a (style a) (fontIndex a) (negb (useGlyphs a)) in
    (a, saveState a)
  else (a, []).

Definition quit (a : State) : State * list Effect :=
  (a, cleanupDisplay ++ [Exit 0]).


(** A keypress event: [key.name] and [key.ctrl]. *)
Record Key := mkKey { name : option str; ctrl : bool }.

Definition named (key : Key) (s : string) : bool :=
  bool_decide (name key = Some (lit s)).

(** One guarded call of the keypress handler. *)
Definition when (cond : bool) (act : State -> State * list Effect)
    (acc : State * list Effect) : State * list Effect :=
  if cond then
    let '(a, effects) := act (fst acc) in (a, snd acc ++ effects)
  else acc.

(** The keypress handler.  [duration] is the command-line argument,
    [parsed] what [parseDuration(duration)] returns ([null] is [None]);
    [ms ?? 0].  The guards are tried in the order of the source. *)
Definition handleKey (duration : option str) (parsed : option Z) (now : Z)
    (key : Key) (a : State) : State * list Effect :=
  let truthy := match duration with Some (_ :: _) => true | _ => false end in
  when (named key "space") (togglePause now)
  (when (named key "r" && truthy) (resetTimer (default 0 parsed) now)
  (when (named key "g") toggleGlyphs
  (when (named key "f") cycleFont
  (when (named key "t") (setStyle TEXT)
  (when (named key "a") (setStyle ANALOG)
  (when (named key "d") (setStyle DIGITAL)
  (when (named key "q" || (ctrl key && named key "c")) quit
  (a, [])))))))).

(** What happens next: a key is pressed or a scheduled interval fires.
    The process is gone once it has exited, and an interval that is no
    longer scheduled does not fire. *)
Inductive Event :=
  | KeyPress (key : Key) (now : Z)
  | Tick (now : Z) (date : Date).

Definition exits (effects : list Effect) : bool :=
  existsb (fun e => match e with Exit _ => true | _ => false end) effects.

Definition step (duration : option str) (parsed : option Z)
    (acc : State * list Effect) (ev : Event) : State * list Effect :=
  if exits (snd acc) then acc
  else
    match ev with
    | KeyPress key now =>
        let '(a, effects) := handleKey duration parsed now key (fst acc) in
        (a, snd acc ++ effects)
    | Tick now date =>
        match scheduled (fst acc) with
        | [] => acc
        | _ :: _ =>
            let '(a, effects) := tick now date (fst acc) in
            (a, snd acc ++ effects)
        end
    end.

(** The [action] of [src/index.ts] after its set-up: with a duration,
    a timer, or an error exit when the duration parses to [null] or to
    zero ([!ms]); the clock otherwise. *)
Definition start (duration : option str) (parsed : option Z) (now : Z)
    (a : State) : State * list Effect :=
  match duration with
  | Some (_ :: _) =>
      match parsed with
      | Some ms =>
          if ms =? 0 then (a, [ConsoleError (lit "Invalid duration format"); Exit 1])
          else startTimer ms now a
      | None => (a, [ConsoleError (lit "Invalid duration format"); Exit 1])
      end
  | _ => startClock a
  end.

Definition run (duration : option str) (parsed : option Z) (now : Z)
    (events : list Event) (a : State) : State * list Effect :=
  foldl (step duration parsed) (start duration parsed now a) events.

(** At most one interval is scheduled, it is the one the state holds,
    and none is while the timer is paused. *)
Definition consistent (a : State) : Prop :=
  (scheduled a = [] \/ exists h, scheduled a = [h] /\ interval a = Some h) /\
  (isPaused a = true -> scheduled a = [] /\ mode a = timer).

(** The escape sequences written, in order. *)
Definition writesOf (effects : list Effect) : list Escape :=
  omap (fun e => match e with Write code => Some code | _ => None end) effects.

(** [cycleFont] pressed [k] times. *)
Definition cycleFonts (k : nat) (a : State) : State :=
  Nat.iter k (fun a => fst (cycleFont a)) a.

End App.

(** A glyph block is in the cache. *)
Definition blockCached (font part : str) (st : Caches) : Prop :=
  exists byFont : gmap str (list str),
    digitCache st !! font = Some byFont /\ is_Some (byFont !! part).

(** ** What the collaborators are assumed to do *)

(** Text without the characters that start (ESC, CSI) or end (BEL) a
    control sequence. *)
Definition plain (t : str) : Prop := (ESC ∉ t) /\ (CSI ∉ t) /\ (BEL ∉ t).

(** A piece of text, styled or not. *)
Definition paintSeg `{Styling} (seg : option Style * str) : str :=
  match fst seg with
  | Some st => chalk st (snd seg)
  | None => snd seg
  end.

(** strip-ansi removes exactly what chalk adds around plain text, and
    chalk adds no line feed of its own.  Both hold for chalk at every
    colour level (at level 0 it returns its argument) with strip-ansi:
    chalk only adds SGR sequences [ESC [ n m], every match of strip-ansi
    starts at an ESC or CSI character and, without a BEL further on, ends
    with the sequence. *)
Class StylingLaws `{Styling} : Prop := {
  strip_styled (segs : list (option Style * str)) :
    Forall (fun seg => plain (snd seg)) segs ->
    stripAnsi (concat (paintSeg <$> segs)) = concat (snd <$> segs);
  chalk_no_LF (st : Style) (t : str) : LF ∉ t -> LF ∉ chalk st t;
}.

(** ** Rendered sizes and the cache invariant *)

Definition artLines `{Figlet} (text font : str) : list str :=
  split LF (textSync text font).

(** The longest line and the number of lines of a rendered text. *)
Definition artWidth `{Figlet} (text font : str) : Z :=
  Math_max (lenZ <$> artLines text font).

Definition artHeight `{Figlet} (text font : str) : Z :=
  lenZ (artLines text font).

(** The strings ["00"] to ["59"]. *)
Definition twoDigit (i : Z) : str :=
  [Z.to_N (48 + i / 10); Z.to_N (48 + i mod 10)].

Definition digitPairs : list str := twoDigit <$> seqZ 0 60.

(** The metrics a cache miss computes. *)
Definition metricsOf `{Figlet} (font : str) : FontMetrics :=
  fst (measureFont font noCaches).

(** The caches hold nothing but what the code stores in them: measured
    metrics and split figlet art. *)
Definition cachesOk `{Figlet} (st : Caches) : Prop :=
  (forall font metrics,
      fontMetricsCache st !! font = Some metrics ->
      metrics = metricsOf font) /\
  (forall font (byFont : gmap str (list str)) s lines,
      digitCache st !! font = Some byFont ->
      byFont !! s = Some lines ->
      lines = artLines s font).

(** The state after further calls to figlet (latest first). *)
Definition logCalls (calls : list (str * str)) (st : Caches) : Caches :=
  {| fontMetricsCache := fontMetricsCache st;
     digitCache := digitCache st;
     figletCalls := calls ++ figletCalls st |}.

(** The measuring loop without its calls to figlet. *)
Definition measurePure `{Figlet} (font : str) (acc : Z * Z) (i : Z) : Z * Z :=
  (Z.max (fst acc) (artWidth (padStart 2 (toString i)) font),
   Z.max (snd acc) (artHeight (padStart 2 (toString i)) font)).

(** The calls of one measurement, latest first. *)
Definition measureCalls (font : str) : list (str * str) :=
  ([COLON], font) ::
  reverse ((fun i => (padStart 2 (toString i), font)) <$> seqZ 0 60).

(** ** Cells of the analog board *)

(** A printing character: none of the control characters above and not
    a line feed. *)
Definition okChar (c : codeunit) : Prop :=
  c ≠ ESC /\ c ≠ CSI /\ c ≠ BEL /\ c ≠ LF.

(** Two cells that carry the same styling around one character each,
    blank in one exactly when blank in the other. *)
Definition cellRel `{Styling} (c1 c2 : str) : Prop :=
  exists (st : option Style) (ch1 ch2 : codeunit),
    okChar ch1 /\ okChar ch2 /\ (ch1 = SPACE <-> ch2 = SPACE) /\
    c1 = paintSeg (st, [ch1]) /\ c2 = paintSeg (st, [ch2]).

(** Two glyphs: one non-blank printing character each. *)
Definition glyphRel (g1 g2 : str) : Prop :=
  exists ch1 ch2 : codeunit,
    g1 = [ch1] /\ g2 = [ch2] /\ okChar ch1 /\ okChar ch2 /\
    ch1 ≠ SPACE /\ ch2 ≠ SPACE.

Definition boardShape (board : Board) : Prop :=
  length board = Z.to_nat sizeY /\
  Forall (fun row => length row = Z.to_nat sizeX) board.

(** What is seen of a multi-line string: its lines without styling. *)
Definition visibleGrid `{Styling} (out : str) : list str :=
  stripAnsi <$> split LF out.

Definition visibleAt `{Styling} (out : str) (y x : nat) : option codeunit :=
  visibleGrid out !! y ≫= fun row => row !! x.

(** Two visible characters are both blank or both ink. *)
Definition sameInk (c1 c2 : codeunit) : Prop := c1 = SPACE <-> c2 = SPACE.

(** The board cells a hand is drawn on. *)
Definition handCells `{Float64} (value : float) (total : Z) (lengthRatio : Q)
    : list (nat * nat) :=
  let angle := handAngle value total in
  omap (fun r =>
          let y := gridY angle (num r) in
          let x := gridX angle (num r) in
          if inBoard y x then Some (Z.to_nat y, Z.to_nat x) else None)
       (halfSteps (inject_Z radius * lengthRatio)%Q).

(** ** Reference implementations of the interfaces

    Small executable stand-ins, used to run the model on concrete inputs:
    chalk at colour level 1 with strip-ansi restricted to the SGR
    sequences chalk emits, a two-row font whose glyph for a character is
    the character repeated, and rational arithmetic with Bhaskara's
    approximation of the sine. *)

Module Ref.

(** [ESC [ code m]. *)
Definition sgr (code : Z) : str := ESC :: 91%N :: toString code ++ [109%N].

(** Opening and closing SGR codes of a style chain, outermost first. *)
Definition codes (st : Style) : list (Z * Z) :=
  match st with
  | white_bold => [(37, 39); (1, 22)]
  | gray => [(90, 39)]
  | dim => [(2, 22)]
  | blue => [(34, 39)]
  | green_bold => [(32, 39); (1, 22)]
  | red_bold => [(31, 39); (1, 22)]
  | white => [(37, 39)]
  | cyan => [(36, 39)]
  | bgRed_white_bold => [(41, 49); (37, 39); (1, 22)]
  | yellow => [(33, 39)]
  | green => [(32, 39)]
  | bold => [(1, 22)]
  | bold_bgBlack_white => [(1, 22); (40, 49); (37, 39)]
  end.

Definition openAll (st : Style) : str :=
  concat ((fun c => sgr (fst c)) <$> codes st).

Definition closeAll (st : Style) : str :=
  concat ((fun c => sgr (snd c)) <$> reverse (codes st)).

(** chalk closes and reopens the style around every line feed. *)
Definition encase (st : Style) (t : str) : str :=
  t ≫= fun c =>
    if N.eqb c LF then closeAll st ++ [LF] ++ openAll st else [c].

Definition paint (st : Style) (t : str) : str :=
  match t with
  | [] => []
  | _ => openAll st ++ encase st t ++ closeAll st
  end.

(** Drops every [ESC ... m] sequence. *)
Fixpoint stripGo (inEscape : bool) (s : str) : str :=
  match s with
  | [] => []
  | c :: t =>
      if inEscape then stripGo (negb (N.eqb c 109%N)) t
      else if N.eqb c ESC then stripGo true t
      else c :: stripGo false t
  end.

Definition styling : Styling :=
  {| chalk := paint; stripAnsi := stripGo false |}.

(** A glyph is its character, twice (three times for ['9']), on two
    rows. *)
Definition glyphWidth (c : codeunit) : nat :=
  if N.eqb c 57%N then 3%nat else 2%nat.

Definition glyphRow (text : str) : str :=
  text ≫= fun c => replicate (glyphWidth c) c.

Definition figlet2 : Figlet :=
  {| textSync := fun text font => join [LF] [glyphRow text; glyphRow text] |}.

Definition qPI : Q := 355 # 113.

(** Bhaskara's formula on [[0, pi]], extended by periodicity and
    symmetry. *)
Definition qsin (x : Q) : Q :=
  let turn := (2 * qPI)%Q in
  let y := (x - inject_Z (Qfloor (x / turn)) * turn)%Q in
  let half (z : Q) : Q :=
    (16 * z * (qPI - z) / (5 * qPI * qPI - 4 * z * (qPI - z)))%Q in
  if Qle_bool y qPI then half y else (- half (y - qPI))%Q.

Definition floatQ : Float64 :=
  {| float := Q;
     num := fun q => q;
     fadd := Qplus; fsub := Qminus; fmul := Qmult; fdiv := Qdiv;
     Math_PI := qPI;
     Math_sin := qsin;
     Math_cos := fun x => qsin (x + qPI / 2)%Q;
     Math_round := fun x => Qfloor (x + (1 # 2))%Q |}.

End Ref.

(** ** What the digital renderer reads and returns *)

(** The art [getDigitalClock] returns for [text] in [font], from the
    figlet art alone. *)
Definition digitalArt `{Figlet} (font text : str) : str :=
  let metrics := metricsOf font in
  let parts := split COLON text in
  let block part targetWidth :=
    padBlockLines metrics (artLines part font) targetWidth in
  join [LF]
    (digitalRows (block (rowAt parts 0) (blockWidth metrics))
                 (block (rowAt parts 1) (blockWidth metrics))
                 (block (rowAt parts 2) (blockWidth metrics))
                 (block [COLON] (sepWidth metrics))).

(** The caches hold everything a call of [getDigitalClock] for [text] in
    [font] reads. *)
Definition warm `{Figlet} (font text : str) (st : Caches) : Prop :=
  fontMetricsCache st !! font = Some (metricsOf font) /\
  blockCached font (rowAt (split COLON text) 0) st /\
  blockCached font (rowAt (split COLON text) 1) st /\
  blockCached font (rowAt (split COLON text) 2) st /\
  blockCached font [COLON] st.

(** The values whose three fields are all among the sixty strings the
    font metrics measure: a time of day, and a duration below sixty
    hours. *)
Definition measuredData (data : DateOrMs) : Prop :=
  match data with
  | ADate date =>
      0 <= getHours date < 24 /\ 0 <= getMinutes date < 60 /\
      0 <= getSeconds date < 60
  | AMs ms => 0 <= ms <= 215999000
  end.

(** ** Runs of the application

    Times and durations are whole milliseconds, as [Date.now()] gives
    them. *)

(** The font list of [src/index.ts]. *)
Definition FONTS : list str :=
  [lit "Standard"; lit "Ghost"; lit "Slant"; lit "Small"; lit "Big";
   lit "Banner"; lit "Larry 3D"].

(** The remaining time a frame of the running (not paused) timer
    shows. *)
Definition runningFrame (e : App.Effect) : option Z :=
  match e with
  | App.Render (AMs ms) _ _ _ false _ => Some ms
  | _ => None
  end.


(** The settings the state holds. *)
Definition settings (a : App.State) : str * Z * bool :=
  (App.style a, App.fontIndex a, App.useGlyphs a).

(** What [finish] does after its last frame. *)
Definition farewell (label : str) : list App.Effect :=
  [App.LogUpdateDone; App.Write App.cursorShow;
   App.Write App.leaveAlternateScreen;
   App.Notify (label ++ lit " finished!"); App.Exit 0].

(** What a run does while it goes on: frames (with time left, for the
    running timer), saved settings, and the two escapes of
    [initDisplay]. *)
Definition liveEffect (e : App.Effect) : Prop :=
  match e with
  | App.Render (AMs ms) _ _ _ false _ => 0 < ms
  | App.Render _ _ _ _ _ _ => True
  | App.SaveConfig _ _ _ => True
  | App.Write App.cursorHide => True
  | App.Write App.enterAlternateScreen => True
  | _ => False
  end.

(** The escapes of [k] calls of [initDisplay]. *)
Definition entered (k : nat) : list App.Escape :=
  concat (replicate k [App.cursorHide; App.enterAlternateScreen]).

(** The three ways a run ends: [quit] (or the interrupt signal), the
    error exit of the start-up, and [finish] for the state's settings. *)
Definition quitTail : list App.Effect :=
  [App.Write App.cursorShow; App.Write App.leaveAlternateScreen; App.Exit 0].

Definition errorTail : list App.Effect :=
  [App.ConsoleError (lit "Invalid duration format"); App.Exit 1].

Definition finishTail (a : App.State) : list App.Effect :=
  App.Render (AMs 0) (App.style a) (Some (App.label a)) (App.currentFont a)
    false (App.useGlyphs a) :: farewell (App.label a).

(** The shape of what a run has done so far. *)
Definition runShape (lbl : str) (acc : App.State * list App.Effect) : Prop :=
  App.label (fst acc) = lbl /\
  ((App.exits (snd acc) = false /\ Forall liveEffect (snd acc) /\
    exists k, App.writesOf (snd acc) = entered (S k)) \/
   snd acc = errorTail \/
   exists pre tail k,
     snd acc = pre ++ tail /\ Forall liveEffect pre /\
     App.writesOf pre = entered (S k) /\
     (tail = quitTail \/ exists a, App.label a = lbl /\ tail = finishTail a)).

(** * Properties *)

(** ** Strings *)

Section StringFacts.
Implicit Types (s t : str) (sep c : codeunit).

Lemma split_nonempty sep s : split sep s ≠ [].
Proof.
  destruct s as [|c t]; simpl; [done|].
  destruct (N.eqb c sep); [done|]. by destruct (split sep t).
Qed.

Lemma split_cons_other sep c s :
  c ≠ sep ->
  split sep (c :: s) =
    (c :: default [] (head (split sep s))) :: tail (split sep s).
Proof.
  intros Hc. simpl. destruct (N.eqb_spec c sep) as [->|_]; [done|].
  pose proof (split_nonempty sep s). by destruct (split sep s).
Qed.

Lemma split_app_sep sep s t :
  sep ∉ s -> split sep (s ++ sep :: t) = s :: split sep t.
Proof.
  induction s as [|c s IH]; intros Hs.
  - simpl. by rewrite N.eqb_refl.
  - apply not_elem_of_cons in Hs as [Hc Hs].
    change ((c :: s) ++ sep :: t) with (c :: (s ++ sep :: t)).
    rewrite split_cons_other by done. by rewrite IH.
Qed.

Lemma split_no_sep sep s : sep ∉ s -> split sep s = [s].
Proof.
  induction s as [|c s IH]; intros Hs; [done|].
  apply not_elem_of_cons in Hs as [Hc Hs].
  rewrite split_cons_other by done. by rewrite IH.
Qed.

Lemma split_join sep (rows : list str) :
  rows ≠ [] -> Forall (fun r => sep ∉ r) rows ->
  split sep (join [sep] rows) = rows.
Proof.
  induction rows as [|r rest IH]; [done|]. intros _ Hall.
  apply Forall_cons in Hall as [Hr Hrest].
  destruct rest as [|r' rest].
  - by apply split_no_sep.
  - change (join [sep] (r :: r' :: rest))
      with (r ++ sep :: join [sep] (r' :: rest)).
    rewrite split_app_sep by done. f_equal. by apply IH.
Qed.

Lemma split_no_sep_inside sep s : Forall (fun r => sep ∉ r) (split sep s).
Proof.
  induction s as [|c s IH]; simpl.
  - repeat constructor. by apply not_elem_of_nil.
  - destruct (N.eqb_spec c sep) as [->|Hc].
    + constructor; [apply not_elem_of_nil | done].
    + pose proof (split_nonempty sep s).
      destruct (split sep s) as [|h r]; [done|].
      apply Forall_cons in IH as [Hh Hr].
      constructor; [|done]. by apply not_elem_of_cons.
Qed.

Lemma length_spaces n : 0 <= n -> lenZ (spaces n) = n.
Proof. intros. unfold lenZ, spaces. rewrite length_replicate. lia. Qed.

Lemma elem_of_spaces c n : c ∈ spaces n -> c = SPACE.
Proof. unfold spaces. by intros [-> _]%elem_of_replicate. Qed.

End StringFacts.

(** ** Decimal numerals *)

Definition isDigit (c : codeunit) : Prop := (48 <= c <= 57)%N.

Lemma digitsOf_small f n acc :
  n < 10 -> digitsOf (S f) n acc = Z.to_N (48 + n mod 10) :: acc.
Proof. intros Hn. simpl. by rewrite (proj2 (Z.ltb_lt n 10) Hn). Qed.

Lemma digitsOf_step f n acc :
  10 <= n ->
  digitsOf (S f) n acc = digitsOf f (n / 10) (Z.to_N (48 + n mod 10) :: acc).
Proof. intros Hn. simpl. by rewrite (proj2 (Z.ltb_ge n 10) Hn). Qed.


Lemma digitsOf_digits f n acc :
  0 <= n -> Forall isDigit acc -> Forall isDigit (digitsOf f n acc).
Proof.
  revert n acc. induction f as [|f IH]; intros n acc Hn Hacc; simpl; [done|].
  assert (isDigit (Z.to_N (48 + n mod 10))).
  { pose proof (Z.mod_pos_bound n 10). unfold isDigit. lia. }
  destruct (n <? 10); [by constructor|].
  apply IH; [apply Z.div_pos; lia | by constructor].
Qed.

Lemma parse_digitsOf f n acc :
  0 <= n < 10 ^ Z.of_nat f ->
  foldl (fun a c => 10 * a + (Z.of_N c - 48)) 0 (digitsOf f n acc) =
  foldl (fun a c => 10 * a + (Z.of_N c - 48)) n acc.
Proof.
  revert n acc. induction f as [|f IH]; intros n acc Hn.
  - simpl in *. by replace n with 0 by lia.
  - pose proof (Z.mod_pos_bound n 10 ltac:(lia)) as Hm.
    pose proof (Z.div_mod n 10 ltac:(lia)) as Hd.
    simpl digitsOf. destruct (Z.ltb_spec n 10) as [Hlt|Hge].
    + simpl. f_equal. rewrite Z.mod_small by lia. lia.
    + rewrite IH.
      * simpl. f_equal. lia.
      * rewrite Nat2Z.inj_succ, Z.pow_succ_r in Hn by lia.
        split; [apply Z.div_pos; lia|].
        apply Z.div_lt_upper_bound; lia.
Qed.

Lemma fuel_enough n : 0 <= n -> n < 10 ^ Z.of_nat (S (Z.to_nat (Z.log2 n))).
Proof.
  intros Hn. destruct (Z.eq_dec n 0) as [->|Hne]; [done|].
  pose proof (Z.log2_nonneg n) as Hl.
  pose proof (Z.log2_spec n ltac:(lia)) as [_ Hup].
  rewrite Nat2Z.inj_succ, Z2Nat.id by done.
  eapply Z.lt_le_trans; [exact Hup|].
  apply Z.pow_le_mono_l. lia.
Qed.

Lemma toString_nonneg n :
  0 <= n -> toString n = digitsOf (S (Z.to_nat (Z.log2 n))) n [].
Proof. intros Hn. unfold toString. by rewrite (proj2 (Z.ltb_ge n 0) Hn). Qed.

Lemma toString_digits n : 0 <= n -> Forall isDigit (toString n).
Proof.
  intros Hn. rewrite toString_nonneg by done. by apply digitsOf_digits.
Qed.

Lemma parseNat_toString n : 0 <= n -> parseNat (toString n) = n.
Proof.
  intros Hn. rewrite toString_nonneg by done. unfold parseNat.
  rewrite parse_digitsOf; [done|]. split; [done|]. by apply fuel_enough.
Qed.

Lemma toString_one_digit n :
  0 <= n < 10 -> toString n = [Z.to_N (48 + n)].
Proof.
  intros Hn. rewrite toString_nonneg, digitsOf_small by lia.
  by rewrite Z.mod_small.
Qed.

Lemma toString_two_digits n :
  10 <= n < 100 -> toString n = [Z.to_N (48 + n / 10); Z.to_N (48 + n mod 10)].
Proof.
  intros Hn. rewrite toString_nonneg by lia.
  assert (1 <= Z.log2 n) as Hl.
  { change 1 with (Z.log2 2). apply Z.log2_le_mono. lia. }
  destruct (Z.to_nat (Z.log2 n)) as [|k] eqn:Hk; [lia|].
  rewrite digitsOf_step, digitsOf_small by first [lia | apply Z.div_lt_upper_bound; lia].
  rewrite (Z.mod_small (n / 10)); [done|].
  split; [apply Z.div_pos; lia | apply Z.div_lt_upper_bound; lia].
Qed.


Lemma colon_not_digit s : Forall isDigit s -> COLON ∉ s.
Proof.
  intros Hs Hin. rewrite Forall_forall in Hs.
  specialize (Hs _ Hin). unfold isDigit, COLON in Hs. lia.
Qed.

Lemma padStart_digits w s : Forall isDigit s -> Forall isDigit (padStart w s).
Proof.
  intros Hs. unfold padStart. apply Forall_app. split; [|done].
  apply Forall_replicate. unfold isDigit, ZERO. lia.
Qed.

Lemma parseNat_padStart w s : parseNat (padStart w s) = parseNat s.
Proof.
  unfold padStart, parseNat. rewrite foldl_app.
  f_equal. induction (Z.to_nat _) as [|k IH]; [done|]. simpl. exact IH.
Qed.

Lemma length_padStart w s :
  0 <= w -> lenZ (padStart w s) = Z.max w (lenZ s).
Proof.
  intros Hw. unfold padStart, lenZ.
  rewrite length_app, length_replicate. lia.
Qed.

(** ** Time/duration formatter *)

Lemma ceilDiv_spec a b :
  0 < b -> b * (ceilDiv a b - 1) < a <= b * ceilDiv a b.
Proof.
  intros Hb. unfold ceilDiv.
  pose proof (Z.div_mod (- a) b ltac:(lia)).
  pose proof (Z.mod_pos_bound (- a) b Hb). lia.
Qed.



Lemma hhmmss_split h m s :
  0 <= h -> 0 <= m -> 0 <= s ->
  split COLON (hhmmss h m s) =
    [padStart 2 (toString h); padStart 2 (toString m); padStart 2 (toString s)].
Proof.
  intros Hh Hm Hs. unfold hhmmss.
  pose proof (colon_not_digit _ (padStart_digits 2 _ (toString_digits h Hh))).
  pose proof (colon_not_digit _ (padStart_digits 2 _ (toString_digits m Hm))).
  pose proof (colon_not_digit _ (padStart_digits 2 _ (toString_digits s Hs))).
  simpl app. rewrite !split_app_sep by done. by rewrite split_no_sep.
Qed.

Lemma formatDuration_fields ms :
  0 <= ms ->
  let totalSeconds := ceilDiv ms 1000 in
  0 <= totalSeconds /\
  formatDuration ms =
    hhmmss (totalSeconds / 3600) ((totalSeconds / 60) mod 60)
           (totalSeconds mod 60).
Proof.
  intros Hms ts. pose proof (ceilDiv_spec ms 1000 ltac:(lia)).
  assert (0 <= ts) as Hts by (subst ts; lia).
  split; [done|]. unfold formatDuration. fold ts.
  assert (0 <= ts / 60) by (apply Z.div_pos; lia).
  by rewrite (Z.rem_mod_nonneg ts 60), (Z.rem_mod_nonneg (ts / 60) 60) by lia.
Qed.





(** ** Glyph-metrics cache *)

Lemma foldl_max_upper (a : Z) (l : list Z) :
  a <= foldl Z.max a l /\ (forall x, x ∈ l -> x <= foldl Z.max a l).
Proof.
  revert a. induction l as [|y l IH]; intros a; simpl.
  - split; [lia|]. intros x Hx. by apply elem_of_nil in Hx.
  - destruct (IH (Z.max a y)) as [Ha Hl]. split; [lia|].
    intros x [->|Hx]%elem_of_cons; [lia | by apply Hl].
Qed.

Lemma foldl_max_attained (a : Z) (l : list Z) : foldl Z.max a l ∈ a :: l.
Proof.
  revert a. induction l as [|y l IH]; intros a; simpl.
  - apply list_elem_of_here.
  - specialize (IH (Z.max a y)).
    apply elem_of_cons in IH as [Heq|Hin].
    + rewrite Heq. destruct (Z.max_spec a y) as [[_ ->]|[_ ->]].
      * apply list_elem_of_further, list_elem_of_here.
      * apply list_elem_of_here.
    + by do 2 apply list_elem_of_further.
Qed.

Lemma Math_max_spec (l : list Z) :
  l ≠ [] -> Math_max l ∈ l /\ (forall x, x ∈ l -> x <= Math_max l).
Proof.
  destruct l as [|a l]; [done|]. intros _. simpl. split.
  - apply foldl_max_attained.
  - destruct (foldl_max_upper a l) as [Ha Hl].
    intros x [->|Hx]%elem_of_cons; [done | by apply Hl].
Qed.

Section MetricsFacts.
Context `{Figlet}.
Implicit Types (font text : str) (st : Caches).

Lemma artLines_nonempty text font : artLines text font ≠ [].
Proof. apply split_nonempty. Qed.

Lemma artHeight_pos text font : 1 <= artHeight text font.
Proof.
  pose proof (artLines_nonempty text font). unfold artHeight, lenZ.
  destruct (artLines text font); simpl; [done | lia].
Qed.

(** The rendered width is the length of a longest line. *)
Lemma artWidth_spec text font :
  (exists line, line ∈ artLines text font /\ artWidth text font = lenZ line) /\
  (forall line, line ∈ artLines text font -> lenZ line <= artWidth text font).
Proof.
  unfold artWidth.
  destruct (Math_max_spec (lenZ <$> artLines text font)) as [Hin Hub].
  { intros Hnil%fmap_nil_inv. by apply (artLines_nonempty text font). }
  split.
  - apply list_elem_of_fmap in Hin as (line & Heq & Hline). eauto.
  - intros line Hline. apply Hub, list_elem_of_fmap. eauto.
Qed.

Lemma artWidth_nonneg text font : 0 <= artWidth text font.
Proof.
  destruct (artWidth_spec text font) as [(line & _ & ->) _]. unfold lenZ. lia.
Qed.

Lemma logCalls_nil st : logCalls [] st = st.
Proof. by destruct st. Qed.

Lemma logCalls_app calls1 calls2 st :
  logCalls calls1 (logCalls calls2 st) = logCalls (calls1 ++ calls2) st.
Proof. unfold logCalls. simpl. by rewrite app_assoc. Qed.

Lemma measureLoop_run font acc (todo : list Z) st :
  measureLoop font acc todo st =
    (foldl (measurePure font) acc todo,
     logCalls (reverse ((fun i => (padStart 2 (toString i), font)) <$> todo)) st).
Proof.
  revert acc st. induction todo as [|i todo IH]; intros acc st.
  - simpl. by rewrite logCalls_nil.
  - simpl measureLoop. unfold mbind, M_bind.
    change (measureStep font acc i st)
      with (measurePure font acc i,
            logCalls [(padStart 2 (toString i), font)] st).
    lazy beta iota. rewrite IH, logCalls_app, fmap_cons, reverse_cons. done.
Qed.

Lemma measureFont_run font st :
  measureFont font st =
    ({| blockWidth := fst (foldl (measurePure font) (0, 0) (seqZ 0 60));
        sepWidth := artWidth [COLON] font;
        height := Z.max (snd (foldl (measurePure font) (0, 0) (seqZ 0 60)))
                        (artHeight [COLON] font) |},
     logCalls (measureCalls font) st).
Proof.
  unfold measureFont, mbind, M_bind. rewrite measureLoop_run.
  unfold figlet, mret, M_ret, measureCalls, logCalls. simpl.
  done.
Qed.

Lemma measurePure_fold font a b (todo : list Z) :
  foldl (measurePure font) (a, b) todo =
    (foldl Z.max a ((fun i => artWidth (padStart 2 (toString i)) font) <$> todo),
     foldl Z.max b ((fun i => artHeight (padStart 2 (toString i)) font) <$> todo)).
Proof.
  revert a b. induction todo as [|i todo IH]; intros a b; [done|].
  simpl. unfold measurePure at 2. simpl. by rewrite IH.
Qed.

Lemma padStart_twoDigit i : 0 <= i < 100 -> padStart 2 (toString i) = twoDigit i.
Proof.
  intros Hi. unfold twoDigit. destruct (Z.lt_ge_cases i 10).
  - rewrite toString_one_digit by lia.
    by rewrite Z.div_small, Z.mod_small by lia.
  - by rewrite toString_two_digits by lia.
Qed.

Lemma digitPairs_measured :
  (fun i => padStart 2 (toString i)) <$> seqZ 0 60 = digitPairs.
Proof.
  unfold digitPairs. apply list_fmap_ext; intros k i Hi.
  apply list_elem_of_lookup_2, elem_of_seqZ in Hi. apply padStart_twoDigit. lia.
Qed.

End MetricsFacts.

Section MetricsCache.
Context `{Figlet}.
Implicit Types (font text : str) (st : Caches).

Lemma measureFont_fst font st : fst (measureFont font st) = metricsOf font.
Proof. unfold metricsOf. by rewrite !measureFont_run. Qed.

Lemma measureFont_snd font st :
  snd (measureFont font st) = logCalls (measureCalls font) st.
Proof. by rewrite measureFont_run. Qed.

(** What a measurement finds. *)
Lemma metricsOf_maxima font :
  let metrics := metricsOf font in
  (forall p, p ∈ digitPairs -> artWidth p font <= blockWidth metrics) /\
  (exists p, p ∈ digitPairs /\ blockWidth metrics = artWidth p font) /\
  sepWidth metrics = artWidth [COLON] font /\
  (forall p, p ∈ [COLON] :: digitPairs -> artHeight p font <= height metrics) /\
  (exists p, p ∈ [COLON] :: digitPairs /\ height metrics = artHeight p font).
Proof.
  unfold metricsOf. rewrite measureFont_run, measurePure_fold.
  cbn [fst snd blockWidth sepWidth height].
  assert ((fun i => artWidth (padStart 2 (toString i)) font) <$> seqZ 0 60
          = (fun p => artWidth p font) <$> digitPairs) as ->.
  { by rewrite <- digitPairs_measured, <- list_fmap_compose. }
  assert ((fun i => artHeight (padStart 2 (toString i)) font) <$> seqZ 0 60
          = (fun p => artHeight p font) <$> digitPairs) as ->.
  { by rewrite <- digitPairs_measured, <- list_fmap_compose. }
  set (widths := (fun p => artWidth p font) <$> digitPairs).
  set (heights := (fun p => artHeight p font) <$> digitPairs).
  destruct (foldl_max_upper 0 widths) as [_ Hwub].
  destruct (foldl_max_upper 0 heights) as [_ Hhub].
  pose proof (foldl_max_attained 0 widths) as Hwin.
  pose proof (foldl_max_attained 0 heights) as Hhin.
  assert (lit "00" ∈ digitPairs) as H00 by (vm_compute; apply list_elem_of_here).
  split; [|split; [|split; [done|split]]].
  - intros p Hp. apply Hwub. subst widths.
    apply list_elem_of_fmap. eauto.
  - apply elem_of_cons in Hwin as [Hzero|Hin].
    + exists (lit "00"). split; [done|]. rewrite Hzero.
      pose proof (artWidth_nonneg (lit "00") font).
      assert (artWidth (lit "00") font <= foldl Z.max 0 widths) as Hle.
      { apply Hwub. subst widths. apply list_elem_of_fmap. eauto. }
      lia.
    + subst widths. apply list_elem_of_fmap in Hin as (p & Heq & Hp). eauto.
  - intros p [->|Hp]%elem_of_cons; [lia|].
    etrans; [|apply Z.le_max_l]. apply Hhub. subst heights.
    apply list_elem_of_fmap. eauto.
  - destruct (Z.max_spec (foldl Z.max 0 heights) (artHeight [COLON] font))
      as [[_ ->]|[Hge ->]].
    + exists [COLON]. split; [apply list_elem_of_here | done].
    + apply elem_of_cons in Hhin as [Hzero|Hin].
      * pose proof (artHeight_pos [COLON] font). lia.
      * subst heights. apply list_elem_of_fmap in Hin as (p & Heq & Hp).
        exists p. split; [by apply list_elem_of_further | done].
Qed.

Lemma getFontMetrics_hit font st metrics :
  fontMetricsCache st !! font = Some metrics ->
  getFontMetrics font st = (metrics, st).
Proof. intros Hhit. unfold getFontMetrics. by rewrite Hhit. Qed.

Lemma getFontMetrics_miss font st :
  fontMetricsCache st !! font = None ->
  getFontMetrics font st =
    (metricsOf font,
     {| fontMetricsCache := <[font := metricsOf font]> (fontMetricsCache st);
        digitCache := digitCache st;
        figletCalls := measureCalls font ++ figletCalls st |}).
Proof.
  intros Hmiss. unfold getFontMetrics. rewrite Hmiss.
  pose proof (measureFont_fst font st) as Hfst.
  pose proof (measureFont_snd font st) as Hsnd.
  destruct (measureFont font st) as [m st']. simpl in Hfst, Hsnd.
  by rewrite Hfst, Hsnd.
Qed.

End MetricsCache.

#[global] Opaque measureFont metricsOf.

Section MetricsTheorem.
Context `{Figlet}.
Implicit Types (font text : str) (st : Caches).

Lemma cachesOk_setMetrics font st calls :
  cachesOk st ->
  cachesOk {| fontMetricsCache := <[font := metricsOf font]> (fontMetricsCache st);
              digitCache := digitCache st;
              figletCalls := calls |}.
Proof.
  intros [Hm Hd]. split; [|exact Hd].
  intros font' m'. cbn [fontMetricsCache]. rewrite lookup_insert.
  case_decide as Heq; [|apply Hm].
  intros Hsome. apply (inj Some) in Hsome. by rewrite <- Hsome, Heq.
Qed.

Lemma getFontMetrics_ok font st :
  cachesOk st ->
  exists st1,
    getFontMetrics font st = (metricsOf font, st1) /\
    cachesOk st1 /\
    fontMetricsCache st1 !! font = Some (metricsOf font) /\
    digitCache st1 = digitCache st.
Proof.
  intros Hok. destruct (fontMetricsCache st !! font) as [m|] eqn:Hlook.
  - exists st. rewrite (getFontMetrics_hit _ _ _ Hlook).
    destruct Hok as [Hm Hd]. rewrite (Hm _ _ Hlook) in Hlook |- *.
    by repeat split.
  - eexists. split; [by apply getFontMetrics_miss|].
    split; [by apply cachesOk_setMetrics|]. split; [|done].
    cbn [fontMetricsCache]. by rewrite lookup_insert_eq.
Qed.

(** C6. Under the cache invariant, [getFontMetrics font] returns the
    largest rendered width over ["00"] .. ["59"] as [blockWidth], the
    rendered width of the separator as [sepWidth] and the largest rendered
    height over all of them as [height]; a second call returns the same
    metrics and leaves the state, and so the calls made to figlet,
    untouched; figlet is called (61 times) only when the font is not in
    the cache yet. *)
Theorem getFontMetrics_cached font st :
  cachesOk st ->
  exists metrics st1,
    getFontMetrics font st = (metrics, st1) /\
    ((forall p, p ∈ digitPairs -> artWidth p font <= blockWidth metrics) /\
     (exists p, p ∈ digitPairs /\ blockWidth metrics = artWidth p font)) /\
    sepWidth metrics = artWidth [COLON] font /\
    ((forall p, p ∈ [COLON] :: digitPairs ->
                artHeight p font <= height metrics) /\
     (exists p, p ∈ [COLON] :: digitPairs /\
                height metrics = artHeight p font)) /\
    getFontMetrics font st1 = (metrics, st1) /\
    (fontMetricsCache st !! font = None ->
     figletCalls st1 = measureCalls font ++ figletCalls st) /\
    (is_Some (fontMetricsCache st !! font) -> st1 = st) /\
    cachesOk st1.
Proof.
  intros Hok.
  destruct (getFontMetrics_ok font st Hok) as (st1 & Hrun & Hok1 & Hcached & _).
  destruct (metricsOf_maxima font) as (Hw1 & Hw2 & Hs & Hh1 & Hh2).
  exists (metricsOf font), st1. split; [exact Hrun|].
  split; [exact (conj Hw1 Hw2)|]. split; [exact Hs|].
  split; [exact (conj Hh1 Hh2)|].
  split; [exact (getFontMetrics_hit _ _ _ Hcached)|].
  split; [|split; [|exact Hok1]].
  - intros Hmiss. rewrite (getFontMetrics_miss _ _ Hmiss) in Hrun.
    apply (f_equal snd) in Hrun. cbn [snd] in Hrun. by rewrite <- Hrun.
  - intros [m Hhit]. rewrite (getFontMetrics_hit _ _ _ Hhit) in Hrun.
    apply (f_equal snd) in Hrun. by cbn [snd] in Hrun.
Qed.

End MetricsTheorem.

Lemma measureCalls_length (font : str) : length (measureCalls font) = 61%nat.
Proof. reflexivity. Qed.

Lemma cachesOk_empty `{Figlet} : cachesOk noCaches.
Proof. split; intros *; cbn [noCaches fontMetricsCache digitCache]; by rewrite lookup_empty. Qed.

Lemma getFontMetrics_cached_witness :
  exists metrics st1,
    getFontMetrics (H := Ref.figlet2) (lit "Standard") noCaches = (metrics, st1) /\
    getFontMetrics (H := Ref.figlet2) (lit "Standard") st1 = (metrics, st1) /\
    figletCalls st1 = measureCalls (lit "Standard") ++ [].
Proof.
  destruct (getFontMetrics_cached (H := Ref.figlet2) (lit "Standard")
              noCaches cachesOk_empty)
    as (metrics & st1 & Hrun & _ & _ & _ & Hagain & Hcalls & _).
  exists metrics, st1. split; [exact Hrun|]. split; [exact Hagain|].
  apply Hcalls. reflexivity.
Defined.

(** ** Block-digit renderer *)

Lemma padLine_split (line : str) (w : Z) :
  let pad := Z.max 0 (w - lenZ line) in
  padLine line w = spaces (pad / 2) ++ line ++ spaces (pad - pad / 2) /\
  lenZ (padLine line w) = Z.max w (lenZ line).
Proof.
  intros pad. unfold padLine. fold pad.
  assert (0 <= pad) by (subst pad; lia).
  assert (0 <= pad / 2 <= pad) as Hhalf.
  { split; [apply Z.div_pos; lia | apply Z.div_le_upper_bound; lia]. }
  rewrite (Z.max_r 0 (pad - pad / 2)) by lia. split; [done|].
  unfold lenZ. rewrite !length_app.
  pose proof (length_spaces (pad / 2) ltac:(lia)).
  pose proof (length_spaces (pad - pad / 2) ltac:(lia)).
  unfold lenZ in *. lia.
Qed.

Lemma padLine_no_LF (line : str) (w : Z) : LF ∉ line -> LF ∉ padLine line w.
Proof.
  intros Hline. unfold padLine. rewrite !not_elem_of_app.
  repeat split; [|done|]; by intros ?%elem_of_spaces.
Qed.

Section DigitalFacts.
Context `{Figlet}.
Implicit Types (font text part : str) (st : Caches).

Lemma artLines_no_LF part font i line :
  artLines part font !! i = Some line -> LF ∉ line.
Proof.
  intros Hi. pose proof (split_no_sep_inside LF (textSync part font)) as Hall.
  by apply (Forall_lookup_1 _ _ _ _ Hall Hi).
Qed.

Lemma artRow_no_LF part font i : LF ∉ default [] (artLines part font !! i).
Proof.
  destruct (artLines part font !! i) as [line|] eqn:Hi; simpl.
  - by eapply artLines_no_LF.
  - apply not_elem_of_nil.
Qed.

Lemma artRow_width part font i :
  lenZ (default [] (artLines part font !! i)) <= artWidth part font.
Proof.
  destruct (artLines part font !! i) as [line|] eqn:Hi; simpl.
  - apply artWidth_spec. by eapply list_elem_of_lookup_2.
  - apply artWidth_nonneg.
Qed.

Lemma padBlockLines_lookup metrics (lines : list str) w (i : nat) :
  (i < Z.to_nat (height metrics))%nat ->
  padBlockLines metrics lines w !! i = Some (padLine (default [] (lines !! i)) w).
Proof.
  intros Hi. unfold padBlockLines. rewrite list_lookup_fmap.
  by rewrite (proj2 (lookup_seq 0 _ i i) (conj eq_refl Hi)).
Qed.

Lemma length_padBlockLines metrics (lines : list str) w :
  length (padBlockLines metrics lines w) = Z.to_nat (height metrics).
Proof. unfold padBlockLines. by rewrite length_fmap, length_seq. Qed.

Lemma digitalRows_eq metrics (hL mL sL sepL : list str) :
  digitalRows (padBlockLines metrics hL (blockWidth metrics))
              (padBlockLines metrics mL (blockWidth metrics))
              (padBlockLines metrics sL (blockWidth metrics))
              (padBlockLines metrics sepL (sepWidth metrics)) =
  (fun i =>
     padLine (default [] (hL !! i)) (blockWidth metrics) ++
     padLine (default [] (sepL !! i)) (sepWidth metrics) ++
     padLine (default [] (mL !! i)) (blockWidth metrics) ++
     padLine (default [] (sepL !! i)) (sepWidth metrics) ++
     padLine (default [] (sL !! i)) (blockWidth metrics))
    <$> seq 0 (Z.to_nat (height metrics)).
Proof.
  apply list_eq; intros i. unfold digitalRows.
  rewrite list_lookup_imap, list_lookup_fmap.
  destruct (decide (i < Z.to_nat (height metrics))%nat) as [Hi|Hi].
  - unfold rowAt. rewrite !padBlockLines_lookup by done.
    by rewrite (proj2 (lookup_seq 0 _ i i) (conj eq_refl Hi)).
  - rewrite (lookup_ge_None_2 (padBlockLines _ _ _)), (lookup_ge_None_2 (seq _ _));
      [done | rewrite length_seq; lia | rewrite length_padBlockLines; lia].
Qed.

Lemma getCachedBlock_ok font part st :
  cachesOk st ->
  exists st1,
    getCachedBlock font part st = (artLines part font, st1) /\
    cachesOk st1 /\
    fontMetricsCache st1 = fontMetricsCache st.
Proof.
  intros [Hm Hd]. unfold getCachedBlock.
  set (byFont := default ∅ (digitCache st !! font)).
  assert (forall s lines, byFont !! s = Some lines -> lines = artLines s font)
    as HbyFont.
  { subst byFont. destruct (digitCache st !! font) as [m|] eqn:Hf; simpl.
    - intros s lines. by apply Hd.
    - intros s lines. by rewrite lookup_empty. }
  destruct (byFont !! part) as [lines|] eqn:Hpart.
  - eexists. split; [by rewrite (HbyFont _ _ Hpart)|]. split; [|done].
    split; [exact Hm|]. cbn [digitCache].
    intros font' m' s lines'. rewrite lookup_insert.
    case_decide as Heq; [|apply Hd].
    intros Hsome. apply (inj Some) in Hsome. subst m' font'. apply HbyFont.
  - eexists. split; [done|]. split; [|done].
    split; [exact Hm|]. cbn [digitCache].
    intros font' m' s lines'. rewrite lookup_insert.
    case_decide as Heq; [|apply Hd].
    intros Hsome. apply (inj Some) in Hsome. subst m' font'.
    rewrite lookup_insert. case_decide as Heq'; [|apply HbyFont].
    intros Hsome. apply (inj Some) in Hsome. by subst.
Qed.

End DigitalFacts.

Section DigitalTheorem.
Context `{Figlet}.
Implicit Types (font text part : str) (st : Caches).

Lemma metricsOf_height_pos font : 1 <= height (metricsOf font).
Proof.
  destruct (metricsOf_maxima font) as (_ & _ & _ & Hub & _).
  pose proof (artHeight_pos [COLON] font).
  specialize (Hub [COLON] ltac:(apply list_elem_of_here)). lia.
Qed.



End DigitalTheorem.



(** ** Analog-face renderer *)

Lemma foldl_sim {A B} (P : A -> A -> Prop) (Q : B -> Prop)
    (f1 f2 : A -> B -> A) (l : list B) (a1 a2 : A) :
  Forall Q l ->
  (forall b1 b2 x, Q x -> P b1 b2 -> P (f1 b1 x) (f2 b2 x)) ->
  P a1 a2 -> P (foldl f1 a1 l) (foldl f2 a2 l).
Proof.
  intros Hl Hstep. revert a1 a2.
  induction Hl as [|x l Hx Hl IH]; intros a1 a2 Ha; simpl; [done|].
  apply IH. by apply Hstep.
Qed.

Lemma charsFor_glyphs (g1 g2 : bool) :
  let c1 := charsFor g1 in
  let c2 := charsFor g2 in
  glyphRel (dialHour c1) (dialHour c2) /\
  glyphRel (dialMinute c1) (dialMinute c2) /\
  glyphRel (dialOther c1) (dialOther c2) /\
  glyphRel (handHour c1) (handHour c2) /\
  glyphRel (handMinute c1) (handMinute c2) /\
  glyphRel (handSecond c1) (handSecond c2) /\
  glyphRel (center c1) (center c2).
Proof.
  destruct g1, g2; simpl; repeat split;
    eexists _, _; (split; [reflexivity|]); (split; [reflexivity|]);
    unfold okChar, ESC, CSI, BEL, LF, SPACE; repeat split; discriminate.
Qed.

Lemma numbers_range :
  Forall (fun entry : Z * Z => 1 <= snd entry <= 12) (zip (seqZ 0 12) numbers).
Proof. vm_compute. repeat constructor; discriminate. Qed.

Lemma okChar_digit (d : Z) : 0 <= d <= 9 -> okChar (Z.to_N (48 + d)).
Proof. intros Hd. unfold okChar, ESC, CSI, BEL, LF. lia. Qed.

Section AnalogFacts.
Context `{Styling} `{Float64}.
Implicit Types (board b : Board) (y x : Z) (v : str).

Lemma cellRel_glyph (st : Style) (g1 g2 : str) :
  glyphRel g1 g2 -> cellRel (chalk st g1) (chalk st g2).
Proof.
  intros (ch1 & ch2 & -> & -> & Hok1 & Hok2 & Hb1 & Hb2).
  exists (Some st), ch1, ch2.
  split; [exact Hok1|]. split; [exact Hok2|].
  split; [split; intros; contradiction|]. split; reflexivity.
Qed.

Lemma cellRel_digit (d : Z) :
  0 <= d <= 9 -> cellRel (toString d) (toString d).
Proof.
  intros Hd. rewrite toString_one_digit by lia.
  exists None, (Z.to_N (48 + d)), (Z.to_N (48 + d)).
  pose proof (okChar_digit d Hd) as Hok.
  split; [exact Hok|]. split; [exact Hok|]. split; [tauto|]. split; reflexivity.
Qed.

Lemma cellRel_blank : cellRel [SPACE] [SPACE].
Proof.
  exists None, SPACE, SPACE.
  assert (okChar SPACE) as Hok
    by (unfold okChar, ESC, CSI, BEL, LF, SPACE; repeat split; discriminate).
  split; [exact Hok|]. split; [exact Hok|]. split; [tauto|]. split; reflexivity.
Qed.

(** Two runs that differ in the glyph set only write related values to
    the same cells. *)
Lemma analogBoard_sim (P : Board -> Board -> Prop) data (isTimer g1 g2 : bool) :
  P emptyBoard emptyBoard ->
  (forall y x v1 v2 b1 b2,
      inBoard y x = true -> cellRel v1 v2 -> P b1 b2 ->
      P (setCell y x v1 b1) (setCell y x v2 b2)) ->
  P (analogBoard data isTimer g1) (analogBoard data isTimer g2).
Proof.
  intros Hempty Hset.
  destruct (charsFor_glyphs g1 g2)
    as (HdH & HdM & HdO & HhH & HhM & HhS & Hc).
  unfold analogBoard.
  apply Hset; [reflexivity | by apply cellRel_glyph |].
  assert (forall value total ratio st gl1 gl2 b1 b2,
             glyphRel gl1 gl2 -> P b1 b2 ->
             P (drawHand value total ratio gl1 st b1)
               (drawHand value total ratio gl2 st b2)) as Hhand.
  { intros value total ratio st gl1 gl2 b1 b2 Hgl Hb. unfold drawHand.
    apply (foldl_sim P (fun _ => True)); [by apply Forall_true | | done].
    intros c1 c2 r _ Hc12. unfold drawHandStep.
    destruct (inBoard _ _) eqn:Hin; [|done].
    apply Hset; [done | by apply cellRel_glyph | done]. }
  unfold drawHands. destruct (handTime data isTimer) as [[hours minutes] seconds].
  do 3 (apply Hhand; [done|]).
  unfold drawNumbers.
  apply (foldl_sim P (fun entry : Z * Z => 1 <= snd entry <= 12));
    [apply numbers_range | |].
  { intros b1 b2 [i n] Hn Hb. simpl in Hn. unfold drawNumberStep.
    destruct (inBoard _ _) eqn:Hin; [|done].
    destruct (Z.ltb_spec 9 n) as [Hbig|Hsmall].
    - assert (0 <= Z.rem n 10 <= 9 /\ 0 <= n / 10 <= 9) as [Hr Hq].
      { rewrite Z.rem_mod_nonneg by lia.
        pose proof (Z.mod_pos_bound n 10 ltac:(lia)).
        assert (n / 10 = 1)
          by (symmetry; apply Z.div_unique with (r := n - 10); lia).
        lia. }
      apply Hset; [done | by apply cellRel_digit |].
      destruct (Z.ltb_spec 0 (gridX (degrees (i * 30)) (numZ (radius - 2))))
        as [Hpos|Hzero]; [|done].
      apply Hset; [|by apply cellRel_digit | done].
      unfold inBoard in *. lia.
    - apply Hset; [done | apply cellRel_digit; lia | done]. }
  unfold drawDial.
  apply (foldl_sim P (fun _ => True)); [by apply Forall_true | | done].
  intros b1 b2 r _ Hb. unfold drawDialStep.
  destruct (inBoard _ _) eqn:Hin; [|done].
  apply Hset; [done | | done]. unfold dialGlyph.
  destruct (_ =? 0); [by apply cellRel_glyph|].
  destruct (_ =? 0); by apply cellRel_glyph.
Qed.

End AnalogFacts.

Lemma boardShape_empty : boardShape emptyBoard.
Proof.
  split; [apply length_replicate|].
  apply Forall_replicate, length_replicate.
Qed.

Lemma boardShape_setCell y x v board :
  boardShape board -> boardShape (setCell y x v board).
Proof.
  intros [Hlen Hrows]. split; unfold setCell.
  - by rewrite length_alter.
  - apply Forall_alter; [done|]. intros row _ Hrow. by rewrite length_insert.
Qed.

Lemma grid_ink (g1 g2 : list str) (y x : nat) :
  Forall2 (Forall2 sameInk) g1 g2 ->
  (exists c, g1 !! y ≫= (fun row => row !! x) = Some c /\ c ≠ SPACE) <->
  (exists c, g2 !! y ≫= (fun row => row !! x) = Some c /\ c ≠ SPACE).
Proof.
  intros Hgrid. split; intros (c & Hc & Hink).
  - destruct (g1 !! y) as [row|] eqn:Hrow; [|done].
    destruct (Forall2_lookup_l _ _ _ _ _ Hgrid Hrow) as (row' & Hrow' & Hrows).
    rewrite Hrow'. simpl in *.
    destruct (Forall2_lookup_l _ _ _ _ _ Hrows Hc) as (c' & Hc' & Hcc).
    exists c'. split; [done|]. unfold sameInk in Hcc. tauto.
  - destruct (g2 !! y) as [row|] eqn:Hrow; [|done].
    destruct (Forall2_lookup_r _ _ _ _ _ Hgrid Hrow) as (row' & Hrow' & Hrows).
    rewrite Hrow'. simpl in *.
    destruct (Forall2_lookup_r _ _ _ _ _ Hrows Hc) as (c' & Hc' & Hcc).
    exists c'. split; [done|]. unfold sameInk in Hcc. tauto.
Qed.

Section AnalogGrid.
Context `{StylingLaws} `{Float64}.
Implicit Types (board b : Board) (row r : list str).

Lemma analogBoard_shape data (isTimer useGlyphs : bool) :
  boardShape (analogBoard data isTimer useGlyphs).
Proof.
  apply (analogBoard_sim (fun b _ => boardShape b) data isTimer useGlyphs useGlyphs).
  - apply boardShape_empty.
  - intros y x v1 v2 b1 b2 _ _ Hb. by apply boardShape_setCell.
Qed.

Lemma analogBoard_rel data (isTimer g1 g2 : bool) :
  Forall2 (Forall2 cellRel)
    (analogBoard data isTimer g1) (analogBoard data isTimer g2).
Proof.
  apply (analogBoard_sim (Forall2 (Forall2 cellRel)) data isTimer g1 g2).
  - unfold emptyBoard. apply Forall2_replicate, Forall2_replicate, cellRel_blank.
  - intros y x v1 v2 b1 b2 _ Hv Hb. unfold setCell.
    apply Forall2_alter; [done|]. intros r1 r2 _ _ Hr.
    by apply Forall2_insert.
Qed.

Lemma okChar_cell (st : option Style) (ch : codeunit) :
  okChar ch -> plain [ch] /\ LF ∉ paintSeg (st, [ch]).
Proof.
  intros (Hesc & Hcsi & Hbel & Hlf).
  assert (forall c, ch ≠ c -> c ∉ [ch]) as Hnot.
  { intros c Hc ->%list_elem_of_singleton. done. }
  split; [repeat split; by apply Hnot|].
  unfold paintSeg. destruct st as [st|]; simpl.
  - apply chalk_no_LF. by apply Hnot.
  - by apply Hnot.
Qed.

Lemma cells_segs r1 r2 :
  Forall2 cellRel r1 r2 ->
  exists segs1 segs2 : list (option Style * str),
    r1 = paintSeg <$> segs1 /\ r2 = paintSeg <$> segs2 /\
    Forall (fun seg => plain (snd seg)) segs1 /\
    Forall (fun seg => plain (snd seg)) segs2 /\
    Forall2 sameInk (concat (snd <$> segs1)) (concat (snd <$> segs2)) /\
    length (concat (snd <$> segs1)) = length r1 /\
    (LF ∉ concat r1) /\ (LF ∉ concat r2).
Proof.
  induction 1 as [|c1 c2 r1 r2 Hc Hr IH].
  - exists [], []. repeat split; try constructor; apply not_elem_of_nil.
  - destruct IH as (segs1 & segs2 & -> & -> & Hp1 & Hp2 & Hink & Hlen & Hlf1 & Hlf2).
    destruct Hc as (st & ch1 & ch2 & Hok1 & Hok2 & Hblank & -> & ->).
    destruct (okChar_cell st ch1 Hok1) as [Hpl1 Hn1].
    destruct (okChar_cell st ch2 Hok2) as [Hpl2 Hn2].
    exists ((st, [ch1]) :: segs1), ((st, [ch2]) :: segs2).
    split; [done|]. split; [done|].
    split; [by constructor|]. split; [by constructor|].
    split; [by constructor|].
    split; [rewrite !fmap_cons; cbn [concat length app snd]; by f_equal|].
    split; cbn [concat]; by rewrite not_elem_of_app.
Qed.

(** What is seen of two related rows. *)
Lemma rows_visible r1 r2 :
  Forall2 cellRel r1 r2 ->
  Forall2 sameInk (stripAnsi (concat r1)) (stripAnsi (concat r2)) /\
  length (stripAnsi (concat r1)) = length r1 /\
  (LF ∉ concat r1) /\ (LF ∉ concat r2).
Proof.
  intros (segs1 & segs2 & -> & -> & Hp1 & Hp2 & Hink & Hlen & Hlf1 & Hlf2)%cells_segs.
  rewrite !strip_styled by done.
  split; [exact Hink|]. split; [exact Hlen|]. by split.
Qed.

Lemma split_rows (b : Board) :
  b ≠ [] -> Forall (fun r => LF ∉ concat r) b ->
  split LF (join [LF] ((fun row => concat row) <$> b)) =
    (fun row => concat row) <$> b.
Proof.
  intros Hne Hlf. apply split_join.
  - by intros ?%fmap_nil_inv.
  - by apply Forall_fmap.
Qed.

Lemma analogBoard_lines data (isTimer useGlyphs : bool) :
  split LF (getAnalogClock data isTimer useGlyphs) =
    (fun row => concat row) <$> analogBoard data isTimer useGlyphs.
Proof.
  unfold getAnalogClock. apply split_rows.
  - destruct (analogBoard_shape data isTimer useGlyphs) as [Hlen _].
    intros Hnil. by rewrite Hnil in Hlen.
  - pose proof (analogBoard_rel data isTimer useGlyphs useGlyphs) as Hrel.
    apply Forall_lookup. intros i r Hi.
    pose proof (Forall2_lookup_lr _ _ _ _ _ _ Hrel Hi Hi) as Hr.
    by apply rows_visible in Hr as (_ & _ & Hlf & _).
Qed.

(** C9. For every input, the string [getAnalogClock] returns has exactly
    45 lines and each of them shows exactly 90 characters once the
    styling is stripped. *)
Theorem getAnalogClock_grid data (isTimer useGlyphs : bool) :
  length (split LF (getAnalogClock data isTimer useGlyphs)) = 45%nat /\
  Forall (fun line => length (stripAnsi line) = 90%nat)
         (split LF (getAnalogClock data isTimer useGlyphs)).
Proof.
  rewrite analogBoard_lines.
  destruct (analogBoard_shape data isTimer useGlyphs) as [Hlen Hrows].
  pose proof (analogBoard_rel data isTimer useGlyphs useGlyphs) as Hrel.
  split; [by rewrite length_fmap|].
  apply Forall_fmap, Forall_lookup. intros i r Hi. simpl.
  pose proof (Forall2_lookup_lr _ _ _ _ _ _ Hrel Hi Hi) as Hr.
  apply rows_visible in Hr as (_ & -> & _).
  by apply (Forall_lookup_1 _ _ _ _ Hrows Hi).
Qed.

(** C8. For every time point and mode, the standard and the extended
    glyph set give grids of the same size in which the same positions
    hold a non-blank character: the visible characters of the two
    outputs are pairwise both blank or both not blank. *)
Theorem glyphs_keep_geometry data (isTimer : bool) :
  let standard := getAnalogClock data isTimer false in
  let extended := getAnalogClock data isTimer true in
  Forall2 (Forall2 sameInk) (visibleGrid standard) (visibleGrid extended) /\
  forall y x : nat,
    (exists c, visibleAt standard y x = Some c /\ c ≠ SPACE) <->
    (exists c, visibleAt extended y x = Some c /\ c ≠ SPACE).
Proof.
  intros standard extended.
  assert (Forall2 (Forall2 sameInk) (visibleGrid standard) (visibleGrid extended))
    as Hgrid.
  { unfold visibleGrid, standard, extended. rewrite !analogBoard_lines.
    rewrite <- !list_fmap_compose. apply Forall2_fmap.
    eapply Forall2_impl; [apply analogBoard_rel|].
    intros r1 r2 Hr. simpl. by apply rows_visible in Hr as (Hink & _). }
  split; [exact Hgrid|]. intros y x. unfold visibleAt.
  by apply grid_ink.
Qed.

End AnalogGrid.

(** ** Order of the hands *)

Lemma cellAt_setCell (y x : Z) (v : str) (board : Board) (i j : nat) :
  boardShape board -> inBoard y x = true ->
  cellAt (setCell y x v board) i j =
    if decide ((i, j) = (Z.to_nat y, Z.to_nat x)) then Some v
    else cellAt board i j.
Proof.
  intros [Hlen Hrows] Hin. unfold inBoard, sizeY, sizeX in Hin.
  unfold cellAt, setCell. rewrite list_lookup_alter.
  destruct (decide (Z.to_nat y = i)) as [<-|Hy].
  - destruct (lookup_lt_is_Some_2 board (Z.to_nat y)) as [row Hrow].
    { rewrite Hlen. unfold sizeY. lia. }
    rewrite Hrow. simpl. rewrite list_lookup_insert.
    pose proof (Forall_lookup_1 _ _ _ _ Hrows Hrow) as Hrowlen.
    simpl in Hrowlen. unfold sizeX in Hrowlen.
    destruct (decide (Z.to_nat x = j)) as [<-|Hx].
    + rewrite decide_True by (split; [done | lia]). by rewrite decide_True.
    + rewrite decide_False by tauto. rewrite decide_False; [done|].
      intros [= ?]. done.
  - rewrite decide_False; [done|]. intros [= ? ?]. done.
Qed.

Section HandOrder.
Context `{Styling} `{Float64}.
Implicit Types (board : Board) (i j : nat).

Lemma cellAt_drawHand value total ratio (char : str) (st : Style) board i j :
  boardShape board ->
  boardShape (drawHand value total ratio char st board) /\
  cellAt (drawHand value total ratio char st board) i j =
    if decide ((i, j) ∈ handCells value total ratio)
    then Some (chalk st char)
    else cellAt board i j.
Proof.
  unfold drawHand, handCells.
  generalize (halfSteps (inject_Z radius * ratio)) as radii.
  intros radii. revert board.
  induction radii as [|r radii IH]; intros board Hshape.
  - split; [done|]. cbn [foldl omap list_omap].
    rewrite decide_False; [done | apply not_elem_of_nil].
  - cbn [foldl omap list_omap]. unfold drawHandStep at 2 4.
    destruct (inBoard _ _) eqn:Hin.
    + match goal with |- context [foldl _ (setCell ?y ?x ?g board) _] =>
        destruct (IH _ (boardShape_setCell y x g _ Hshape)) as [Hshape' ->]
      end.
      split; [done|]. rewrite cellAt_setCell by done.
      destruct (decide ((i, j) ∈ omap _ radii)) as [Hhit|Hmiss].
      * rewrite decide_True; [done | by apply list_elem_of_further].
      * destruct (decide ((i, j) = _)) as [Heq|Hne].
        -- rewrite decide_True; [done | rewrite Heq; apply list_elem_of_here].
        -- rewrite decide_False; [done|].
           by intros [?|?]%elem_of_cons.
    + destruct (IH _ Hshape) as [Hshape' ->]. done.
Qed.

(** C7. The final value of every board cell: the centre glyph at the
    centre; elsewhere the hour glyph on the cells of the hour hand, else
    the minute glyph on the cells of the minute hand, else the second
    glyph on the cells of the second hand, else what the dial and the
    numerals left there.  So where hands overlap the later-drawn one
    (second, then minute, then hour) is what remains, and the centre is
    written last. *)
Theorem hands_precedence data (isTimer useGlyphs : bool) (i j : nat) :
  let chars := charsFor useGlyphs in
  let hours := fst (fst (handTime data isTimer)) in
  let minutes := snd (fst (handTime data isTimer)) in
  let seconds := snd (handTime data isTimer) in
  let face := drawNumbers (drawDial chars emptyBoard) in
  let hourHand := handCells (hourValue hours minutes) 12 (1 # 2) in
  let minuteHand := handCells (numZ minutes) 60 (3 # 4) in
  let secondHand := handCells (numZ seconds) 60 (9 # 10) in
  cellAt (analogBoard data isTimer useGlyphs) i j =
    if decide ((i, j) = (Z.to_nat centerY, Z.to_nat centerX))
    then Some (chalk white (center chars))
    else if decide ((i, j) ∈ hourHand)
    then Some (chalk red_bold (handHour chars))
    else if decide ((i, j) ∈ minuteHand)
    then Some (chalk green_bold (handMinute chars))
    else if decide ((i, j) ∈ secondHand)
    then Some (chalk blue (handSecond chars))
    else cellAt face i j.
Proof.
  intros chars hours minutes seconds face hourHand minuteHand secondHand.
  assert (boardShape face) as Hface.
  { subst face. unfold drawNumbers, drawDial.
    apply (foldl_sim (fun b _ => boardShape b) (fun _ => True)
             drawNumberStep drawNumberStep _ _ emptyBoard);
      [by apply Forall_true | |].
    - intros b _ [k n] _ Hb. unfold drawNumberStep.
      destruct (inBoard _ _); [|done].
      destruct (9 <? n); [|by apply boardShape_setCell].
      apply boardShape_setCell. destruct (0 <? _); [|done].
      by apply boardShape_setCell.
    - apply (foldl_sim (fun b _ => boardShape b) (fun _ => True)
               (drawDialStep chars) (drawDialStep chars) _ _ emptyBoard);
        [by apply Forall_true | | apply boardShape_empty].
      intros b _ r _ Hb. unfold drawDialStep.
      destruct (inBoard _ _); [by apply boardShape_setCell | done]. }
  unfold analogBoard. fold chars face. unfold drawHands.
  subst hours minutes seconds.
  destruct (handTime data isTimer) as [[hours minutes] seconds].
  cbn [fst snd] in *.
  destruct (cellAt_drawHand (numZ seconds) 60 (9 # 10) (handSecond chars)
              blue face i j Hface) as [Hs1 Hs2].
  destruct (cellAt_drawHand (numZ minutes) 60 (3 # 4) (handMinute chars)
              green_bold _ i j Hs1) as [Hm1 Hm2].
  destruct (cellAt_drawHand (hourValue hours minutes) 12 (1 # 2)
              (handHour chars) red_bold _ i j Hm1) as [Hh1 Hh2].
  rewrite cellAt_setCell by done.
  fold hourHand minuteHand secondHand in Hs2, Hm2, Hh2.
  by rewrite Hh2, Hm2, Hs2.
Qed.

(** X23. In the legacy JavaScript renderer the precedence is the
    reverse: the second hand, drawn last, is what remains where hands
    overlap. *)
Lemma legacy_hands_precedence (hours minutes seconds : Z) board i j :
  boardShape board ->
  cellAt (drawHandsLegacy (hours, minutes, seconds) board) i j =
    if decide ((i, j) ∈ handCells (numZ seconds) 60 (9 # 10))
    then Some (chalk blue [46%N])
    else if decide ((i, j) ∈ handCells (numZ minutes) 60 (3 # 4))
    then Some (chalk green_bold [0x25cf%N])
    else if decide ((i, j) ∈ handCells (hourValue hours minutes) 12 (1 # 2))
    then Some (chalk red_bold [0x2588%N])
    else cellAt board i j.
Proof.
  intros Hshape. unfold drawHandsLegacy. lazy beta iota zeta.
  destruct (cellAt_drawHand (hourValue hours minutes) 12 (1 # 2) [0x2588%N]
              red_bold board i j Hshape) as [Hh1 Hh2].
  destruct (cellAt_drawHand (numZ minutes) 60 (3 # 4) [0x25cf%N]
              green_bold _ i j Hh1) as [Hm1 Hm2].
  destruct (cellAt_drawHand (numZ seconds) 60 (9 # 10) [46%N]
              blue _ i j Hm1) as [Hs1 Hs2].
  rewrite Hs2, Hm2, Hh2. reflexivity.
Qed.

End HandOrder.

(** ** The reference styling satisfies the laws *)

Lemma ref_strip_plain (t rest : str) :
  ESC ∉ t -> Ref.stripGo false (t ++ rest) = t ++ Ref.stripGo false rest.
Proof.
  induction t as [|c t IH]; intros Ht; [done|].
  apply not_elem_of_cons in Ht as [Hc Ht]. simpl.
  destruct (N.eqb_spec c ESC) as [->|_]; [done|]. by rewrite IH.
Qed.

Lemma ref_strip_open (st : Style) (rest : str) :
  Ref.stripGo false (Ref.openAll st ++ rest) = Ref.stripGo false rest.
Proof. destruct st; reflexivity. Qed.

Lemma ref_strip_close (st : Style) (rest : str) :
  Ref.stripGo false (Ref.closeAll st ++ rest) = Ref.stripGo false rest.
Proof. destruct st; reflexivity. Qed.

Lemma ref_strip_encase (st : Style) (t rest : str) :
  ESC ∉ t ->
  Ref.stripGo false (Ref.encase st t ++ rest) = t ++ Ref.stripGo false rest.
Proof.
  induction t as [|c t IH]; intros Ht; [done|].
  apply not_elem_of_cons in Ht as [Hc Ht].
  unfold Ref.encase in *. cbn [mbind list_bind]. rewrite <- app_assoc.
  destruct (N.eqb_spec c LF) as [->|Hlf].
  - rewrite <- !app_assoc, ref_strip_close. cbn [app Ref.stripGo].
    match goal with |- context [N.eqb ?a ESC] =>
      destruct (N.eqb_spec a ESC) as [Heq|_]; [discriminate Heq|] end.
    rewrite ref_strip_open. f_equal. by apply IH.
  - cbn [app Ref.stripGo].
    destruct (N.eqb_spec c ESC) as [->|_]; [done|]. f_equal. by apply IH.
Qed.

Lemma ref_strip_paint (st : Style) (t rest : str) :
  ESC ∉ t ->
  Ref.stripGo false (Ref.paint st t ++ rest) = t ++ Ref.stripGo false rest.
Proof.
  intros Ht. destruct t as [|c t]; [done|].
  unfold Ref.paint. rewrite <- !app_assoc.
  by rewrite ref_strip_open, ref_strip_encase, ref_strip_close.
Qed.

Lemma ref_codes_no_LF (st : Style) :
  (LF ∉ Ref.openAll st) /\ (LF ∉ Ref.closeAll st).
Proof.
  assert (forall l : str, Forall (fun c => c ≠ LF) l -> LF ∉ l) as Hall.
  { intros l Hl Hin. by apply (proj1 (Forall_forall _ _) Hl LF Hin). }
  split; apply Hall; destruct st; vm_compute; repeat constructor; discriminate.
Qed.

Lemma ref_styling_laws : StylingLaws (H := Ref.styling).
Proof.
  split.
  - intros segs Hplain. cbn [stripAnsi Ref.styling].
    induction Hplain as [|[st t] segs [Ht _] _ IH]; [done|].
    rewrite !fmap_cons. cbn [concat snd]. rewrite <- IH.
    unfold paintSeg at 1. cbn [fst snd]. destruct st as [st|].
    + by apply ref_strip_paint.
    + by apply ref_strip_plain.
  - intros st t Ht. cbn [chalk Ref.styling]. unfold Ref.paint.
    destruct t as [|c t]; [apply not_elem_of_nil|].
    destruct (ref_codes_no_LF st) as [Hopen Hclose].
    rewrite !not_elem_of_app. split; [done|]. split; [|done].
    generalize dependent (c :: t). intros l Hl.
    induction l as [|d l IH]; [apply not_elem_of_nil|].
    apply not_elem_of_cons in Hl as [Hd Hl].
    unfold Ref.encase in *. cbn [mbind list_bind].
    destruct (N.eqb_spec d LF) as [->|_]; [done|].
    rewrite not_elem_of_app. split; [|by apply IH].
    by intros Heq%list_elem_of_singleton.
Qed.

Lemma getAnalogClock_grid_witness :
  length (split LF (getAnalogClock (H := Ref.styling) (H0 := Ref.floatQ)
                      (AMs 65000) true false)) = 45%nat /\
  Forall (fun line => length (stripAnsi (Styling := Ref.styling) line) = 90%nat)
         (split LF (getAnalogClock (H := Ref.styling) (H0 := Ref.floatQ)
                      (AMs 65000) true false)).
Proof.
  exact (getAnalogClock_grid (H := Ref.styling) (H0 := ref_styling_laws)
           (H1 := Ref.floatQ) (AMs 65000) true false).
Defined.

Lemma glyphs_keep_geometry_witness :
  (exists c, visibleAt (H := Ref.styling)
               (getAnalogClock (H := Ref.styling) (H0 := Ref.floatQ)
                  (ADate (mkDate 10 0 0)) false false) 22 45 = Some c /\
             c ≠ SPACE) <->
  (exists c, visibleAt (H := Ref.styling)
               (getAnalogClock (H := Ref.styling) (H0 := Ref.floatQ)
                  (ADate (mkDate 10 0 0)) false true) 22 45 = Some c /\
             c ≠ SPACE).
Proof.
  exact (proj2 (glyphs_keep_geometry (H := Ref.styling)
                  (H0 := ref_styling_laws) (H1 := Ref.floatQ)
                  (ADate (mkDate 10 0 0)) false) 22%nat 45%nat).
Defined.

(** ** Layout engine *)

Lemma split_app (sep : codeunit) (a b : str) :
  split sep (a ++ sep :: b) = split sep a ++ split sep b.
Proof.
  induction a as [|c a IH].
  - simpl. by rewrite N.eqb_refl.
  - change ((c :: a) ++ sep :: b) with (c :: (a ++ sep :: b)).
    destruct (N.eq_dec c sep) as [->|Hc].
    + simpl. rewrite N.eqb_refl. by rewrite IH.
    + rewrite !split_cons_other, IH by done.
      pose proof (split_nonempty sep a). by destruct (split sep a).
Qed.

Lemma split_lines (ls : list str) (t : str) :
  Forall (fun l => LF ∉ l) ls -> LF ∉ t ->
  split LF (concat ((fun l => l ++ [LF]) <$> ls) ++ t) = ls ++ [t].
Proof.
  intros Hls Ht. induction Hls as [|l ls Hl Hls IH].
  - by apply split_no_sep.
  - rewrite fmap_cons. cbn [concat]. rewrite <- !app_assoc.
    cbn [app]. rewrite split_app_sep by done. by rewrite IH.
Qed.

Lemma blank_lines (n : nat) :
  replicate n LF = concat ((fun l => l ++ [LF]) <$> replicate n ([] : str)).
Proof.
  induction n as [|n IH]; [done|].
  cbn [replicate]. rewrite fmap_cons. cbn [concat app]. by rewrite <- IH.
Qed.

Lemma placed_lines {A} (f : str -> A -> str) (g : str -> A) (ls : list str) :
  concat (zip_with (fun l a => f l a ++ [LF]) ls (g <$> ls)) =
  concat ((fun l => l ++ [LF]) <$> ((fun l => f l (g l)) <$> ls)).
Proof.
  induction ls as [|l ls IH]; [done|].
  rewrite !fmap_cons. cbn [zip_with concat]. by rewrite IH.
Qed.

Lemma no_LF_check (s : str) : forallb (fun c => negb (N.eqb c LF)) s = true -> LF ∉ s.
Proof.
  intros Hall Hin. rewrite forallb_forall in Hall.
  apply list_elem_of_In, Hall in Hin. by rewrite N.eqb_refl in Hin.
Qed.




Lemma ANALOG_ne_DIGITAL : ANALOG ≠ DIGITAL.
Proof. intros Heq. vm_compute in Heq. discriminate. Qed.

Lemma TEXT_ne_DIGITAL : TEXT ≠ DIGITAL.
Proof. intros Heq. vm_compute in Heq. discriminate. Qed.

Lemma TEXT_ne_ANALOG : TEXT ≠ ANALOG.
Proof. intros Heq. vm_compute in Heq. discriminate. Qed.

Section FooterFacts.
Context `{Styling} `{Figlet} `{Float64}.

(** The footer text is one of twelve literals. *)
Lemma footerText_cases (style : str) (isTimer useGlyphs : bool) :
  footerText style isTimer useGlyphs =
    lit "q: Quit | d: Digital | a: Analog | t: Text" ++
    (if decide (style = DIGITAL) then lit " | f: Cycle Font"
     else if decide (style = ANALOG) then
       (if useGlyphs then lit " | g: Glyphs (ON)" else lit " | g: Glyphs (OFF)")
     else []) ++
    (if isTimer then lit " | r: Reset | space: Start/Pause" else []).
Proof.
  unfold footerText. do 2 f_equal.
  destruct (decide (style = DIGITAL)) as [Hd|Hd].
  - by rewrite bool_decide_eq_true_2.
  - rewrite bool_decide_eq_false_2 by done.
    destruct (decide (style = ANALOG)) as [Ha|Ha].
    + rewrite bool_decide_eq_true_2 by done. by destruct useGlyphs.
    + by rewrite bool_decide_eq_false_2.
Qed.

Lemma footerText_no_LF (style : str) (isTimer useGlyphs : bool) :
  LF ∉ footerText style isTimer useGlyphs.
Proof.
  rewrite footerText_cases.
  destruct (decide (style = DIGITAL)); [|destruct (decide (style = ANALOG))];
    destruct isTimer, useGlyphs; by apply no_LF_check.
Qed.


Lemma footerText_hints (style : str) (isTimer useGlyphs : bool) :
  let footer := footerText style isTimer useGlyphs in
  startsWith (lit "q: Quit | d: Digital | a: Analog | t: Text") footer = true /\
  (includes (lit "| f: Cycle Font") footer = true <-> style = DIGITAL) /\
  (includes (lit "| g: Glyphs (ON)") footer = true <->
     style = ANALOG /\ useGlyphs = true) /\
  (includes (lit "| g: Glyphs (OFF)") footer = true <->
     style = ANALOG /\ useGlyphs = false) /\
  (includes (lit "| r: Reset | space: Start/Pause") footer = true <->
     isTimer = true).
Proof.
  intros footer. subst footer. rewrite footerText_cases.
  pose proof ANALOG_ne_DIGITAL as Hne.
  destruct (decide (style = DIGITAL)) as [Hd|Hd];
    [|destruct (decide (style = ANALOG)) as [Ha|Ha]];
    destruct isTimer, useGlyphs;
    (split; [vm_compute; reflexivity|]);
    repeat split; try (intros Hf; vm_compute in Hf; discriminate Hf);
    try (intros _; vm_compute; reflexivity);
    try (intros [? ?]; first [done | congruence]);
    try done; try congruence.
Qed.

End FooterFacts.

Section LayoutTheorems.
Context `{StylingLaws} `{Figlet} `{Float64}.
Implicit Types (size : Size) (content footer style font : str) (st : Caches).

Lemma render_frame data style (label : option str) font
    (isPaused useGlyphs : bool) size st :
  fst (render data style label font isPaused useGlyphs size st) =
    layout size
      (fst (renderContent data style label font isPaused useGlyphs size st))
      (footerText style (isNumber data) useGlyphs).
Proof.
  unfold render, mbind, M_bind, mret, M_ret.
  by destruct (renderContent data style label font isPaused useGlyphs size st).
Qed.

Lemma footerLine_no_LF size footer : LF ∉ footer -> LF ∉ footerLine size footer.
Proof.
  intros Hfooter. unfold footerLine. apply not_elem_of_app. split.
  - by intros ?%elem_of_spaces.
  - by apply chalk_no_LF.
Qed.

Lemma layout_lines size content footer :
  LF ∉ footer ->
  let lines := split LF content in
  let contentHeight := lenZ lines in
  let maxContentWidth := Math_max (visibleLength <$> lines) in
  let topPad := Z.max 0 ((rows size - 1 - contentHeight) / 2) in
  let blockLeftPad := (columns size - maxContentWidth) / 2 in
  let bottomPad := Z.max 0 (rows size - 1 - (topPad + contentHeight)) in
  split LF (layout size content footer) =
    replicate (Z.to_nat topPad) [] ++
    ((fun line =>
        spaces (Z.max 0 (blockLeftPad +
                         (maxContentWidth - visibleLength line) / 2)) ++ line)
       <$> lines) ++
    replicate (Z.to_nat bottomPad) [] ++
    [spaces (Z.max 0 ((columns size - visibleLength footer) / 2)) ++
     chalk dim footer].
Proof.
  intros Hfooter lines contentHeight maxContentWidth topPad blockLeftPad bottomPad.
  unfold layout. fold lines. fold contentHeight. fold maxContentWidth.
  fold blockLeftPad. fold topPad. fold bottomPad.
  rewrite !blank_lines, placed_lines, !app_assoc, <- !concat_app, <- !fmap_app.
  rewrite split_lines; [by rewrite <- !app_assoc | | by apply footerLine_no_LF].
  rewrite !Forall_app. repeat split.
  - apply Forall_replicate, not_elem_of_nil.
  - apply Forall_fmap, Forall_forall. intros line Hline. simpl.
    unfold placeLine. apply not_elem_of_app. split.
    + by intros ?%elem_of_spaces.
    + pose proof (split_no_sep_inside LF content) as Hall.
      by apply (proj1 (Forall_forall _ _) Hall).
  - apply Forall_replicate, not_elem_of_nil.
Qed.



End LayoutTheorems.



(** ** Style downgrade *)

Lemma toString_no_LF (n : Z) : LF ∉ toString n.
Proof.
  assert (forall s : str, Forall isDigit s -> LF ∉ s) as Hdigits.
  { intros s Hs Hin. apply (proj1 (Forall_forall _ _) Hs) in Hin.
    unfold isDigit, LF in Hin. lia. }
  unfold toString. destruct (n <? 0) eqn:Hn.
  - apply not_elem_of_cons. split; [done|].
    apply Hdigits, digitsOf_digits; [lia | constructor].
  - apply Hdigits, digitsOf_digits; [lia | constructor].
Qed.

Section DowngradeTheorem.
Context `{Styling} `{Figlet} `{Float64}.
Implicit Types (size : Size) (style font : str) (st : Caches).




Lemma renderBody_other data style text font (useGlyphs : bool) st :
  style ≠ DIGITAL -> style ≠ ANALOG ->
  renderBody data style text font useGlyphs st =
    (chalk bold_bgBlack_white (lit "  " ++ text ++ lit "  "), st).
Proof.
  intros Hd Ha. unfold renderBody.
  by rewrite (bool_decide_eq_false_2 _ Hd), (bool_decide_eq_false_2 _ Ha).
Qed.


End DowngradeTheorem.


(** ** The cache invariant holds throughout *)

Section CacheInvariant.
Context `{Styling} `{Figlet} `{Float64}.
Implicit Types (size : Size) (style font text : str) (st : Caches).

Lemma getDigitalClock_preserves text font st :
  cachesOk st -> cachesOk (snd (getDigitalClock text font st)).
Proof.
  intros Hok.
  destruct (getFontMetrics_ok font st Hok) as (st0 & Hrun0 & Hok0 & _ & _).
  unfold getDigitalClock, mbind, M_bind. rewrite Hrun0.
  destruct (getCachedBlock_ok font (rowAt (split COLON text) 0) st0 Hok0)
    as (st1 & -> & Hok1 & _).
  destruct (getCachedBlock_ok font (rowAt (split COLON text) 1) st1 Hok1)
    as (st2 & -> & Hok2 & _).
  destruct (getCachedBlock_ok font (rowAt (split COLON text) 2) st2 Hok2)
    as (st3 & -> & Hok3 & _).
  destruct (getCachedBlock_ok font [COLON] st3 Hok3) as (st4 & -> & Hok4 & _).
  exact Hok4.
Qed.

(** Every call of [render] leaves the caches as the code fills them, so
    the invariant holds in every state the module can reach from its
    initial, empty caches. *)
Lemma render_preserves data style (label : option str) font
    (isPaused useGlyphs : bool) size st :
  cachesOk st ->
  cachesOk (snd (render data style label font isPaused useGlyphs size st)).
Proof.
  intros Hok.
  unfold render, renderContent, mbind, M_bind, mret, M_ret.
  assert (cachesOk (snd (styleFit size style font st))) as Hfit.
  { unfold styleFit, mbind, M_bind, mret, M_ret.
    destruct (bool_decide (style = DIGITAL)).
    - destruct (getFontMetrics_ok font st Hok) as (st0 & -> & Hok0 & _ & _).
      by destruct (_ || _).
    - destruct (bool_decide (style = ANALOG)); [by destruct (_ || _) | done]. }
  destruct (styleFit size style font st) as [fit st1]. cbn [snd] in Hfit.
  assert (cachesOk (snd (renderBody data (snd fit) (displayText data) font
                           useGlyphs st1))) as Hbody.
  { unfold renderBody, mbind, M_bind, mret, M_ret.
    destruct (bool_decide (snd fit = DIGITAL)).
    - pose proof (getDigitalClock_preserves (displayText data) font st1 Hfit)
        as Hclock.
      by destruct (getDigitalClock (displayText data) font st1).
    - by destruct (bool_decide (snd fit = ANALOG)). }
  by destruct (renderBody data (snd fit) (displayText data) font useGlyphs st1).
Qed.

End CacheInvariant.

(** ** Running the model *)

Section Examples.
#[local] Existing Instances Ref.styling Ref.figlet2 Ref.floatQ.

Example formatDuration_examples :
  formatDuration 65000 = lit "00:01:05" /\
  formatDuration 0 = lit "00:00:00" /\
  formatDuration 1 = lit "00:00:01" /\
  formatDuration 1000 = lit "00:00:01" /\
  formatDuration 1001 = lit "00:00:02" /\
  formatDuration 360000000 = lit "100:00:00" /\
  formatTime (mkDate 10 0 0) = lit "10:00:00".
Proof. repeat split; reflexivity. Qed.

Example getSize_examples :
  getSize (Some 40) (Some 100) = {| rows := 40; columns := 100 |} /\
  getSize None None = {| rows := 24; columns := 80 |}.
Proof. split; reflexivity. Qed.

Example digitPairs_range :
  length digitPairs = 60%nat /\
  head digitPairs = Some (lit "00") /\ last digitPairs = Some (lit "59").
Proof. repeat split; reflexivity. Qed.

(** At noon the three hands lie on one column: the second hand shows
    only beyond the minute hand, the minute hand only beyond the hour
    hand, and the centre is the centre glyph. *)
Example noon_hands :
  let board := analogBoard (ADate (mkDate 12 0 0)) false false in
  (fun y => cellAt board y 45) <$> [5; 9; 15; 22]%nat =
    [Some (chalk blue [0xb7%N]); Some (chalk green_bold [0x25cf%N]);
     Some (chalk red_bold [0x2588%N]); Some (chalk white [0x2295%N])] /\
  (15%nat, 45%nat) ∈ handCells (numZ 0) 60 (9 # 10) /\
  (15%nat, 45%nat) ∈ handCells (numZ 0) 60 (3 # 4) /\
  (15%nat, 45%nat) ∈ handCells (hourValue 0 0) 12 (1 # 2).
Proof.
  split; [vm_compute; reflexivity|].
  repeat split; apply list_elem_of_In; vm_compute; tauto.
Qed.

(** The end-to-end cases of the text style. *)
Example render_text_examples :
  let clock :=
    fst (render (ADate (mkDate 10 0 0)) TEXT None (lit "Standard") false false
           (getSize None None) noCaches) in
  let paused :=
    fst (render (AMs 65000) TEXT (Some (lit "My Timer")) (lit "Standard")
           true false (getSize None None) noCaches) in
  includes (lit "10:00:00") clock = true /\
  includes (lit "00:01:05") paused = true /\
  includes (lit "PAUSED") paused = true /\
  includes (lit "My Timer") paused = true /\
  lenZ (split LF paused) = 24.
Proof. vm_compute. repeat split; reflexivity. Qed.

(** A terminal of 15 columns is too narrow for the reference font: the
    digital style is replaced by the text body behind its warning, and
    the footer still offers the font hint. *)
Example render_downgrade_example :
  let frame :=
    fst (render (AMs 65000) DIGITAL None (lit "Standard") false false
           {| rows := 24; columns := 15 |} noCaches) in
  includes
    (digitalWarning (lit "Standard") 19 2)
    (stripAnsi frame) = true /\
  includes (lit "font 'Standard' (needs 19x2), switching to text.")
           (stripAnsi frame) = true /\
  includes (lit "  00:01:05  ") (stripAnsi frame) = true /\
  includes (lit "| f: Cycle Font | r: Reset | space: Start/Pause")
           (stripAnsi frame) = true.
Proof. vm_compute. repeat split; reflexivity. Qed.

End Examples.

(** * Further properties *)

(** ** Formatter *)

Lemma formatDuration_parse (ms : Z) :
  0 <= ms -> parseBackToSeconds (formatDuration ms) = Some (ceilDiv ms 1000).
Proof.
  intros Hms. destruct (formatDuration_fields ms Hms) as [Hpos Hfmt].
  set (ts := ceilDiv ms 1000) in *.
  pose proof (Z.mod_pos_bound (ts / 60) 60 ltac:(lia)) as Hm.
  pose proof (Z.mod_pos_bound ts 60 ltac:(lia)) as Hs.
  assert (0 <= ts / 3600) as Hh by (apply Z.div_pos; lia).
  unfold parseBackToSeconds.
  rewrite Hfmt, hhmmss_split by lia.
  rewrite !parseNat_padStart, !parseNat_toString by lia. f_equal.
  pose proof (Z.div_mod ts 60 ltac:(lia)).
  pose proof (Z.div_mod (ts / 60) 60 ltac:(lia)).
  rewrite Z.div_div in * by lia. change (60 * 60) with 3600 in *. lia.
Qed.



Lemma formatDuration_positive (ms : Z) :
  0 < ms -> formatDuration ms ≠ lit "00:00:00".
Proof.
  intros Hpos Heq.
  pose proof (formatDuration_parse ms ltac:(lia)) as Hp.
  rewrite Heq in Hp.
  change (parseBackToSeconds (lit "00:00:00")) with (Some 0) in Hp.
  pose proof (ceilDiv_spec ms 1000 ltac:(lia)).
  injection Hp as Hp. lia.
Qed.



(** X3. For a time of day, [formatTime] gives exactly eight characters:
    two decimal digits for each of the hours, minutes and seconds.
    Every field is one of the strings the font metrics measure, the text
    reads back as the second of the day, and different times give
    different texts. *)
Theorem formatTime_fields (date : Date) :
  0 <= getHours date < 24 -> 0 <= getMinutes date < 60 ->
  0 <= getSeconds date < 60 ->
  formatTime date =
    twoDigit (getHours date) ++ [COLON] ++ twoDigit (getMinutes date) ++
    [COLON] ++ twoDigit (getSeconds date) /\
  length (formatTime date) = 8%nat /\
  split COLON (formatTime date) =
    [twoDigit (getHours date); twoDigit (getMinutes date);
     twoDigit (getSeconds date)] /\
  Forall (fun field => field ∈ digitPairs) (split COLON (formatTime date)) /\
  parseBackToSeconds (formatTime date) =
    Some (3600 * getHours date + 60 * getMinutes date + getSeconds date) /\
  (forall date',
      0 <= getHours date' < 24 -> 0 <= getMinutes date' < 60 ->
      0 <= getSeconds date' < 60 ->
      formatTime date = formatTime date' -> date = date').
Proof.
  intros Hh Hm Hs.
  assert (forall d, 0 <= getHours d < 24 -> 0 <= getMinutes d < 60 ->
                    0 <= getSeconds d < 60 ->
                    formatTime d =
                      twoDigit (getHours d) ++ [COLON] ++
                      twoDigit (getMinutes d) ++ [COLON] ++
                      twoDigit (getSeconds d)) as Hfmt.
  { intros d ? ? ?. unfold formatTime, hhmmss.
    by rewrite !padStart_twoDigit by lia. }
  assert (forall d, 0 <= getHours d < 24 -> 0 <= getMinutes d < 60 ->
                    0 <= getSeconds d < 60 ->
                    parseBackToSeconds (formatTime d) =
                      Some (3600 * getHours d + 60 * getMinutes d +
                            getSeconds d)) as Hparse.
  { intros d ? ? ?. unfold parseBackToSeconds, formatTime.
    rewrite hhmmss_split by lia.
    by rewrite !parseNat_padStart, !parseNat_toString by lia. }
  assert (forall i, 0 <= i < 60 -> twoDigit i ∈ digitPairs) as Hpairs.
  { intros i Hi. unfold digitPairs. apply list_elem_of_fmap.
    exists i. split; [done|]. apply elem_of_seqZ. lia. }
  assert (split COLON (formatTime date) =
          [twoDigit (getHours date); twoDigit (getMinutes date);
           twoDigit (getSeconds date)]) as Hsplit.
  { unfold formatTime. rewrite hhmmss_split by lia.
    by rewrite !padStart_twoDigit by lia. }
  split; [by apply Hfmt|]. split; [by rewrite Hfmt|].
  split; [exact Hsplit|]. split.
  { rewrite Hsplit. repeat apply Forall_cons_2; [apply Hpairs; lia..|].
    apply Forall_nil_2. }
  split; [by apply Hparse|].
  intros date' Hh' Hm' Hs' Heq.
  pose proof (Hparse date Hh Hm Hs) as Hp.
  rewrite Heq, Hparse in Hp by done. injection Hp as Hp.
  destruct date as [h m s], date' as [h' m' s']. simpl in *.
  assert (h = h' /\ m = m' /\ s = s') as (-> & -> & ->) by lia. done.
Qed.

Lemma formatTime_fields_witness :
  formatTime (mkDate 10 30 0) =
    twoDigit 10 ++ [COLON] ++ twoDigit 30 ++ [COLON] ++ twoDigit 0 /\
  length (formatTime (mkDate 10 30 0)) = 8%nat.
Proof.
  destruct (formatTime_fields (mkDate 10 30 0)) as (Hfmt & Hlen & _);
    [simpl; lia..|].
  exact (conj Hfmt Hlen).
Defined.

(** ** The caches of the digital renderer *)

Section CacheSteady.
Context `{Styling} `{Figlet} `{Float64}.
Implicit Types (size : Size) (style font text part : str) (st : Caches).

Lemma getCachedBlock_hit font part st :
  cachesOk st -> blockCached font part st ->
  getCachedBlock font part st = (artLines part font, st).
Proof.
  intros [_ Hd] (byFont & Hfont & [lines Hpart]).
  unfold getCachedBlock. rewrite Hfont. cbn [from_option id]. rewrite Hpart.
  rewrite (Hd _ _ _ _ Hfont Hpart), insert_id by done.
  by destruct st.
Qed.

Lemma getCachedBlock_caches font part st :
  let st1 := snd (getCachedBlock font part st) in
  blockCached font part st1 /\
  (forall part', blockCached font part' st -> blockCached font part' st1) /\
  fontMetricsCache st1 = fontMetricsCache st.
Proof.
  unfold getCachedBlock.
  set (byFont := default ∅ (digitCache st !! font)).
  assert (forall part',
             blockCached font part' st -> is_Some (byFont !! part')) as Hold.
  { intros part' (m & Hfont & Hpart). subst byFont. by rewrite Hfont. }
  destruct (byFont !! part) as [lines|] eqn:Hpart; cbn [snd digitCache];
    unfold blockCached; cbn [digitCache].
  - split; [|split; [|done]].
    + exists byFont. rewrite lookup_insert_eq, Hpart. by eauto.
    + intros part' Hin. exists byFont. rewrite lookup_insert_eq.
      split; [done|]. by apply Hold.
  - split; [|split; [|done]].
    + eexists. rewrite lookup_insert_eq. split; [done|].
      rewrite lookup_insert_eq. by eauto.
    + intros part' Hin. eexists. rewrite lookup_insert_eq. split; [done|].
      rewrite lookup_insert. case_decide; [by eauto|]. by apply Hold.
Qed.

Lemma getFontMetrics_blocks font part st :
  cachesOk st -> blockCached font part st ->
  blockCached font part (snd (getFontMetrics font st)).
Proof.
  intros Hok Hin.
  destruct (getFontMetrics_ok font st Hok) as (st1 & -> & _ & _ & Hdigits).
  cbn [snd]. unfold blockCached. by rewrite Hdigits.
Qed.

Lemma getDigitalClock_warms text font st :
  cachesOk st -> warm font text (snd (getDigitalClock text font st)).
Proof.
  intros Hok.
  destruct (getFontMetrics_ok font st Hok) as (st0 & Hrun0 & Hok0 & Hm0 & _).
  unfold getDigitalClock, mbind, M_bind. rewrite Hrun0.
  set (p0 := rowAt (split COLON text) 0).
  set (p1 := rowAt (split COLON text) 1).
  set (p2 := rowAt (split COLON text) 2).
  pose proof (getCachedBlock_caches font p0 st0) as (Hin1 & _ & Hm1).
  destruct (getCachedBlock_ok font p0 st0 Hok0) as (st1 & Hrun1 & Hok1 & _).
  rewrite Hrun1 in *. cbn [snd] in *.
  pose proof (getCachedBlock_caches font p1 st1) as (Hin2 & Hkeep2 & Hm2).
  destruct (getCachedBlock_ok font p1 st1 Hok1) as (st2 & Hrun2 & Hok2 & _).
  rewrite Hrun2 in *. cbn [snd] in *.
  pose proof (getCachedBlock_caches font p2 st2) as (Hin3 & Hkeep3 & Hm3).
  destruct (getCachedBlock_ok font p2 st2 Hok2) as (st3 & Hrun3 & Hok3 & _).
  rewrite Hrun3 in *. cbn [snd] in *.
  pose proof (getCachedBlock_caches font [COLON] st3) as (Hin4 & Hkeep4 & Hm4).
  destruct (getCachedBlock_ok font [COLON] st3 Hok3)
    as (st4 & Hrun4 & Hok4 & _).
  rewrite Hrun4 in *. cbn [snd] in *.
  unfold mret, M_ret. cbn [snd]. fold p0 p1 p2.
  split; [by rewrite Hm4, Hm3, Hm2, Hm1|].
  split; [by apply Hkeep4, Hkeep3, Hkeep2|].
  split; [by apply Hkeep4, Hkeep3|].
  split; [by apply Hkeep4|]. exact Hin4.
Qed.

Lemma getDigitalClock_steady text font st :
  cachesOk st -> warm font text st ->
  getDigitalClock text font st = (digitalArt font text, st).
Proof.
  intros Hok (Hm & Hin0 & Hin1 & Hin2 & Hin3).
  unfold getDigitalClock, mbind, M_bind.
  rewrite (getFontMetrics_hit _ _ _ Hm).
  by rewrite !getCachedBlock_hit by done.
Qed.

Lemma getDigitalClock_fst text font st :
  cachesOk st -> fst (getDigitalClock text font st) = digitalArt font text.
Proof.
  intros Hok.
  destruct (getFontMetrics_ok font st Hok) as (st0 & Hrun0 & Hok0 & _ & _).
  unfold getDigitalClock, mbind, M_bind. rewrite Hrun0.
  destruct (getCachedBlock_ok font (rowAt (split COLON text) 0) st0 Hok0)
    as (st1 & -> & Hok1 & _).
  destruct (getCachedBlock_ok font (rowAt (split COLON text) 1) st1 Hok1)
    as (st2 & -> & Hok2 & _).
  destruct (getCachedBlock_ok font (rowAt (split COLON text) 2) st2 Hok2)
    as (st3 & -> & Hok3 & _).
  by destruct (getCachedBlock_ok font [COLON] st3 Hok3) as (st4 & -> & _).
Qed.

(** X4. Once [getDigitalClock] has drawn a text in a font, drawing it
    again gives the same art and leaves both caches and the log of
    figlet calls exactly as they are: the second call reads only the
    caches. *)
Theorem getDigitalClock_again text font st :
  cachesOk st ->
  getDigitalClock text font (snd (getDigitalClock text font st)) =
  getDigitalClock text font st.
Proof.
  intros Hok.
  pose proof (getDigitalClock_warms text font st Hok) as Hwarm.
  pose proof (getDigitalClock_preserves text font st Hok) as Hok1.
  pose proof (getDigitalClock_fst text font st Hok) as Hfst.
  rewrite (getDigitalClock_steady text font _ Hok1 Hwarm).
  destruct (getDigitalClock text font st) as [out st1].
  cbn [fst snd] in *. by rewrite Hfst.
Qed.

End CacheSteady.

Lemma getDigitalClock_again_witness :
  let first :=
    getDigitalClock (H := Ref.figlet2) (lit "00:01:05") (lit "Standard")
      noCaches in
  getDigitalClock (H := Ref.figlet2) (lit "00:01:05") (lit "Standard")
    (snd first) = first.
Proof.
  exact (getDigitalClock_again (H0 := Ref.figlet2) (lit "00:01:05")
           (lit "Standard") noCaches cachesOk_empty).
Defined.

Section RenderCaches.
Context `{Styling} `{Figlet} `{Float64}.
Implicit Types (size : Size) (style font text : str) (st : Caches).

Lemma getFontMetrics_fst font st :
  cachesOk st -> fst (getFontMetrics font st) = metricsOf font.
Proof.
  intros Hok. by destruct (getFontMetrics_ok font st Hok) as (st1 & -> & _).
Qed.

Lemma styleFit_plain size style font st :
  style <> DIGITAL ->
  snd (styleFit size style font st) = st /\
  snd (fst (styleFit size style font st)) <> DIGITAL.
Proof.
  intros Hstyle. unfold styleFit, mret, M_ret.
  rewrite bool_decide_eq_false_2 by done.
  destruct (bool_decide (style = ANALOG)); [|done].
  destruct (_ || _); [|done]. split; [done|]. exact TEXT_ne_DIGITAL.
Qed.

Lemma renderBody_plain data style text font (useGlyphs : bool) st :
  style <> DIGITAL ->
  snd (renderBody data style text font useGlyphs st) = st.
Proof.
  intros Hstyle. unfold renderBody, mret, M_ret.
  rewrite bool_decide_eq_false_2 by done.
  by destruct (bool_decide (style = ANALOG)).
Qed.

Lemma renderContent_plain data style (label : option str) font
    (isPaused useGlyphs : bool) size st :
  style <> DIGITAL ->
  snd (renderContent data style label font isPaused useGlyphs size st) = st.
Proof.
  intros Hstyle.
  destruct (styleFit_plain size style font st Hstyle) as [Hst Heff].
  unfold renderContent, mbind, M_bind, mret, M_ret.
  destruct (styleFit size style font st) as [fit st1]. cbn [fst snd] in *.
  subst st1.
  pose proof (renderBody_plain data (snd fit) (displayText data) font
                useGlyphs st Heff) as Hbody.
  by destruct (renderBody data (snd fit) (displayText data) font useGlyphs st).
Qed.

(** X5. Outside the digital style [render] does not touch the caches
    and never calls figlet: the analog and text styles, and their
    too-small-terminal fallback, leave the renderer's state exactly as
    it was. *)
Theorem render_plain_state data style (label : option str) font
    (isPaused useGlyphs : bool) size st :
  style <> DIGITAL ->
  snd (render data style label font isPaused useGlyphs size st) = st.
Proof.
  intros Hstyle.
  pose proof (renderContent_plain data style label font isPaused useGlyphs
                size st Hstyle) as Hcontent.
  unfold render, mbind, M_bind, mret, M_ret.
  by destruct (renderContent data style label font isPaused useGlyphs size st).
Qed.

Lemma styleFit_fst size style font st st' :
  cachesOk st -> cachesOk st' ->
  fst (styleFit size style font st) = fst (styleFit size style font st').
Proof.
  intros Hok Hok'. unfold styleFit, mbind, M_bind, mret, M_ret.
  destruct (bool_decide (style = DIGITAL)).
  - destruct (getFontMetrics_ok font st Hok) as (st0 & -> & _).
    destruct (getFontMetrics_ok font st' Hok') as (st0' & -> & _).
    by destruct (_ || _).
  - destruct (bool_decide (style = ANALOG)); [by destruct (_ || _) | done].
Qed.

Lemma styleFit_preserves size style font st :
  cachesOk st -> cachesOk (snd (styleFit size style font st)).
Proof.
  intros Hok. unfold styleFit, mbind, M_bind, mret, M_ret.
  destruct (bool_decide (style = DIGITAL)).
  - destruct (getFontMetrics_ok font st Hok) as (st0 & -> & Hok0 & _ & _).
    by destruct (_ || _).
  - destruct (bool_decide (style = ANALOG)); [by destruct (_ || _) | done].
Qed.

Lemma renderBody_fst data style text font (useGlyphs : bool) st st' :
  cachesOk st -> cachesOk st' ->
  fst (renderBody data style text font useGlyphs st) =
  fst (renderBody data style text font useGlyphs st').
Proof.
  intros Hok Hok'. unfold renderBody, mbind, M_bind, mret, M_ret.
  destruct (bool_decide (style = DIGITAL)).
  - pose proof (getDigitalClock_fst text font st Hok) as Hfst.
    pose proof (getDigitalClock_fst text font st' Hok') as Hfst'.
    destruct (getDigitalClock text font st) as [art st1].
    destruct (getDigitalClock text font st') as [art' st1'].
    cbn [fst] in *. by rewrite Hfst, Hfst'.
  - by destruct (bool_decide (style = ANALOG)).
Qed.

(** X6. What [render] returns does not depend on what the caches hold:
    from any two states the code can reach, the same arguments and
    terminal size give the same frame.  The caches save figlet calls and
    nothing else. *)
Theorem render_cache_transparent data style (label : option str) font
    (isPaused useGlyphs : bool) size st st' :
  cachesOk st -> cachesOk st' ->
  fst (render data style label font isPaused useGlyphs size st) =
  fst (render data style label font isPaused useGlyphs size st').
Proof.
  intros Hok Hok'.
  pose proof (styleFit_fst size style font st st' Hok Hok') as Hfit.
  pose proof (styleFit_preserves size style font st Hok) as Hok1.
  pose proof (styleFit_preserves size style font st' Hok') as Hok1'.
  unfold render, renderContent, mbind, M_bind, mret, M_ret.
  destruct (styleFit size style font st) as [fit st1].
  destruct (styleFit size style font st') as [fit' st1'].
  cbn [fst snd] in *. subst fit'.
  pose proof (renderBody_fst data (snd fit) (displayText data) font useGlyphs
                st1 st1' Hok1 Hok1') as Hbody.
  destruct (renderBody data (snd fit) (displayText data) font useGlyphs st1)
    as [body st2].
  destruct (renderBody data (snd fit) (displayText data) font useGlyphs st1')
    as [body' st2'].
  cbn [fst] in *. by subst body'.
Qed.

Lemma styleFit_digital size font st :
  cachesOk st ->
  exists fit st1,
    styleFit size DIGITAL font st = (fit, st1) /\
    cachesOk st1 /\
    styleFit size DIGITAL font st1 = (fit, st1).
Proof.
  intros Hok.
  destruct (getFontMetrics_ok font st Hok) as (st0 & Hrun0 & Hok0 & Hm0 & _).
  unfold styleFit, mbind, M_bind, mret, M_ret.
  rewrite bool_decide_eq_true_2 by done.
  rewrite Hrun0.
  destruct (_ || _) eqn:Hsmall; do 2 eexists; (split; [done|]);
    (split; [exact Hok0|]);
    by rewrite (getFontMetrics_hit _ _ _ Hm0), Hsmall.
Qed.

Lemma warm_metrics font text st :
  warm font text st -> fontMetricsCache st !! font = Some (metricsOf font).
Proof. by intros [Hm _]. Qed.

(** X7. Rendering the same frame again is free: after one call of
    [render], a second call with the same arguments and terminal size
    returns the same frame and leaves the caches and the log of figlet
    calls unchanged, whatever the style. *)
Theorem render_again data style (label : option str) font
    (isPaused useGlyphs : bool) size st :
  cachesOk st ->
  render data style label font isPaused useGlyphs size
    (snd (render data style label font isPaused useGlyphs size st)) =
  render data style label font isPaused useGlyphs size st.
Proof.
  intros Hok. destruct (decide (style = DIGITAL)) as [->|Hstyle]; cycle 1.
  { pose proof (renderContent_plain data style label font isPaused useGlyphs
                  size st Hstyle) as Hcontent.
    unfold render, mbind, M_bind, mret, M_ret.
    destruct (renderContent data style label font isPaused useGlyphs size st)
      as [content st1] eqn:Hrun.
    cbn [snd] in *. subst st1. by rewrite Hrun. }
  destruct (styleFit_digital size font st Hok)
    as (fit & st1 & Hrun & Hok1 & Hrun1).
  unfold render, renderContent, mbind, M_bind, mret, M_ret.
  rewrite Hrun. unfold renderBody, mbind, M_bind, mret, M_ret.
  destruct (bool_decide (snd fit = DIGITAL)) eqn:Heff.
  - pose proof (getDigitalClock_warms (displayText data) font st1 Hok1)
      as Hwarm.
    pose proof (getDigitalClock_preserves (displayText data) font st1 Hok1)
      as Hok2.
    pose proof (getDigitalClock_fst (displayText data) font st1 Hok1) as Hfst.
    destruct (getDigitalClock (displayText data) font st1) as [art st2].
    cbn [fst snd] in *.
    assert (styleFit size DIGITAL font st2 = (fit, st2)) as Hrun2.
    { pose proof (styleFit_fst size DIGITAL font st st2 Hok Hok2) as Hfit.
      rewrite Hrun in Hfit. cbn [fst] in Hfit.
      unfold styleFit, mbind, M_bind, mret, M_ret in Hfit |- *.
      rewrite bool_decide_eq_true_2 in Hfit |- * by done.
      rewrite (getFontMetrics_hit _ _ _ (warm_metrics _ _ _ Hwarm)) in Hfit |- *.
      destruct (_ || _); cbn [fst] in Hfit; by rewrite Hfit. }
    rewrite Hrun2, Heff.
    rewrite (getDigitalClock_steady _ _ _ Hok2 Hwarm). by rewrite Hfst.
  - destruct (bool_decide (snd fit = ANALOG)) eqn:Heff'; cbn [snd];
      by rewrite Hrun1, Heff, Heff'.
Qed.

End RenderCaches.

Lemma render_plain_state_witness :
  snd (render (H := Ref.styling) (H0 := Ref.figlet2) (H1 := Ref.floatQ)
         (AMs 65000) ANALOG None (lit "Standard") false true
         (mkSize 50 100) noCaches) = noCaches.
Proof.
  apply (render_plain_state (H := Ref.styling) (H0 := Ref.figlet2)
           (H1 := Ref.floatQ)).
  exact ANALOG_ne_DIGITAL.
Defined.

Lemma render_cache_transparent_witness :
  fst (render (H := Ref.styling) (H0 := Ref.figlet2) (H1 := Ref.floatQ)
         (AMs 65000) DIGITAL None (lit "Standard") false false
         (mkSize 24 80) noCaches) =
  fst (render (H := Ref.styling) (H0 := Ref.figlet2) (H1 := Ref.floatQ)
         (AMs 65000) DIGITAL None (lit "Standard") false false
         (mkSize 24 80)
         (snd (getDigitalClock (H := Ref.figlet2) (lit "12:34:56")
                 (lit "Standard") noCaches))).
Proof.
  apply (render_cache_transparent (H := Ref.styling) (H0 := Ref.figlet2)
           (H1 := Ref.floatQ)).
  - exact cachesOk_empty.
  - exact (getDigitalClock_preserves (H0 := Ref.figlet2) _ _ _ cachesOk_empty).
Defined.

Lemma render_again_witness :
  render (H := Ref.styling) (H0 := Ref.figlet2) (H1 := Ref.floatQ)
    (AMs 65000) DIGITAL None (lit "Standard") false false (mkSize 24 80)
    (snd (render (H := Ref.styling) (H0 := Ref.figlet2) (H1 := Ref.floatQ)
            (AMs 65000) DIGITAL None (lit "Standard") false false
            (mkSize 24 80) noCaches)) =
  render (H := Ref.styling) (H0 := Ref.figlet2) (H1 := Ref.floatQ)
    (AMs 65000) DIGITAL None (lit "Standard") false false (mkSize 24 80)
    noCaches.
Proof.
  apply (render_again (H := Ref.styling) (H0 := Ref.figlet2)
           (H1 := Ref.floatQ)).
  exact cachesOk_empty.
Defined.

(** ** The digital fit check *)

Section DigitalFit.
Context `{Styling} `{Figlet} `{Float64}.
Implicit Types (size : Size) (style font text : str) (st : Caches).

Lemma twoDigit_measured i : 0 <= i < 60 -> twoDigit i ∈ digitPairs.
Proof.
  intros Hi. unfold digitPairs. apply list_elem_of_fmap.
  exists i. split; [done|]. apply elem_of_seqZ. lia.
Qed.

Lemma displayText_fields data :
  measuredData data ->
  exists hh mm ss,
    split COLON (displayText data) = [hh; mm; ss] /\
    hh ∈ digitPairs /\ mm ∈ digitPairs /\ ss ∈ digitPairs.
Proof.
  destruct data as [date|ms]; cbn [measuredData displayText].
  - intros (Hh & Hm & Hs). unfold formatTime.
    rewrite hhmmss_split, !padStart_twoDigit by lia.
    do 3 eexists. split; [done|].
    repeat split; apply twoDigit_measured; lia.
  - intros Hms. destruct (formatDuration_fields ms) as [Hpos ->]; [lia|].
    set (ts := ceilDiv ms 1000) in *.
    assert (ts <= 215999) as Hts.
    { pose proof (ceilDiv_spec ms 1000 ltac:(lia)). fold ts in H2. lia. }
    pose proof (Z.mod_pos_bound (ts / 60) 60 ltac:(lia)).
    pose proof (Z.mod_pos_bound ts 60 ltac:(lia)).
    assert (0 <= ts / 3600 < 60).
    { split; [apply Z.div_pos; lia | apply Z.div_lt_upper_bound; lia]. }
    rewrite hhmmss_split, !padStart_twoDigit by lia.
    do 3 eexists. split; [done|].
    repeat split; apply twoDigit_measured; lia.
Qed.

Lemma digitalArt_lines font text :
  split LF (digitalArt font text) =
  (fun i =>
     let row part w := padLine (default [] (artLines part font !! i)) w in
     row (rowAt (split COLON text) 0) (blockWidth (metricsOf font)) ++
     row [COLON] (sepWidth (metricsOf font)) ++
     row (rowAt (split COLON text) 1) (blockWidth (metricsOf font)) ++
     row [COLON] (sepWidth (metricsOf font)) ++
     row (rowAt (split COLON text) 2) (blockWidth (metricsOf font)))
    <$> seq 0 (Z.to_nat (height (metricsOf font))).
Proof.
  unfold digitalArt. cbv zeta. rewrite digitalRows_eq.
  pose proof (metricsOf_height_pos font) as Hheight.
  apply split_join.
  - intros Hnil%fmap_nil_inv. apply (f_equal length) in Hnil.
    rewrite length_seq in Hnil. simpl in Hnil. lia.
  - apply Forall_fmap, Forall_forall. intros i _. simpl.
    rewrite !not_elem_of_app.
    repeat split; apply padLine_no_LF, artRow_no_LF.
Qed.

Lemma measured_row font part i :
  part ∈ digitPairs ->
  lenZ (padLine (default [] (artLines part font !! i))
          (blockWidth (metricsOf font))) = blockWidth (metricsOf font).
Proof.
  intros Hpart. rewrite (proj2 (padLine_split _ _)).
  destruct (metricsOf_maxima font) as (Hwub & _).
  pose proof (artRow_width part font i). specialize (Hwub part Hpart). lia.
Qed.

Lemma separator_row font i :
  lenZ (padLine (default [] (artLines [COLON] font !! i))
          (sepWidth (metricsOf font))) = sepWidth (metricsOf font).
Proof.
  rewrite (proj2 (padLine_split _ _)).
  destruct (metricsOf_maxima font) as (_ & _ & Hsep & _).
  pose proof (artRow_width [COLON] font i). lia.
Qed.

(** X8. The digital fit check is exact for what the application shows.
    For a time of day and for a duration below sixty hours, the art of
    [getDigitalClock] has [height] lines and every line is exactly
    [3 * blockWidth + 2 * sepWidth] characters wide; so whenever
    [render] keeps the digital style, every line of the art fits the
    terminal's columns and the art leaves two rows free. *)
Theorem digital_art_fits data font size st :
  cachesOk st -> measuredData data ->
  let metrics := metricsOf font in
  let art := fst (getDigitalClock (displayText data) font st) in
  lenZ (split LF art) = height metrics /\
  Forall (fun line =>
            lenZ line = blockWidth metrics * 3 + sepWidth metrics * 2)
         (split LF art) /\
  (snd (fst (styleFit size DIGITAL font st)) = DIGITAL ->
   Forall (fun line => lenZ line <= columns size) (split LF art) /\
   lenZ (split LF art) + 2 <= rows size).
Proof.
  intros Hok Hdata. cbv zeta.
  set (art := fst (getDigitalClock (displayText data) font st)).
  destruct (displayText_fields data Hdata)
    as (hh & mm & ss & Hsplit & Hhh & Hmm & Hss).
  assert (split LF art =
          (fun i =>
             let row part w := padLine (default [] (artLines part font !! i)) w in
             row hh (blockWidth (metricsOf font)) ++
             row [COLON] (sepWidth (metricsOf font)) ++
             row mm (blockWidth (metricsOf font)) ++
             row [COLON] (sepWidth (metricsOf font)) ++
             row ss (blockWidth (metricsOf font)))
            <$> seq 0 (Z.to_nat (height (metricsOf font)))) as Hlines.
  { subst art. rewrite getDigitalClock_fst by done.
    by rewrite digitalArt_lines, Hsplit. }
  pose proof (metricsOf_height_pos font) as Hheight.
  assert (lenZ (split LF art) = height (metricsOf font)) as Hcount.
  { rewrite Hlines. unfold lenZ. rewrite length_fmap, length_seq. lia. }
  assert (Forall (fun line =>
                    lenZ line = blockWidth (metricsOf font) * 3 +
                                sepWidth (metricsOf font) * 2)
                 (split LF art)) as Hwidths.
  { rewrite Hlines. apply Forall_fmap, Forall_forall. intros i _.
    cbv beta zeta. unfold compose.
    pose proof (measured_row font hh i Hhh).
    pose proof (measured_row font mm i Hmm).
    pose proof (measured_row font ss i Hss).
    pose proof (separator_row font i).
    unfold lenZ in *. rewrite !length_app. lia. }
  split; [exact Hcount|]. split; [exact Hwidths|].
  intros Hkept.
  unfold styleFit, mbind, M_bind, mret, M_ret in Hkept.
  rewrite bool_decide_eq_true_2 in Hkept by done.
  destruct (getFontMetrics_ok font st Hok) as (st0 & Hrun & _).
  rewrite Hrun in Hkept.
  destruct (_ || _) eqn:Hsmall; cbn [fst snd] in Hkept.
  { by destruct TEXT_ne_DIGITAL. }
  apply orb_false_iff in Hsmall as [Hcols Hrows].
  apply Z.ltb_ge in Hcols, Hrows. split; [|lia].
  eapply Forall_impl; [exact Hwidths|]. intros line Hline.
  cbv beta in Hline. lia.
Qed.

End DigitalFit.

Lemma digital_art_fits_witness :
  lenZ (split LF (fst (getDigitalClock (H := Ref.figlet2)
                         (displayText (ADate (mkDate 23 59 59)))
                         (lit "Standard") noCaches))) =
  height (metricsOf (H := Ref.figlet2) (lit "Standard")).
Proof.
  destruct (digital_art_fits (H := Ref.styling) (H0 := Ref.figlet2)
              (ADate (mkDate 23 59 59)) (lit "Standard") (mkSize 24 80)
              noCaches cachesOk_empty) as (Hcount & _).
  - cbn [measuredData getHours getMinutes getSeconds]. lia.
  - exact Hcount.
Defined.

(** ** Size and centring of the frame *)

Lemma padStart_no_LF (w : Z) (s : str) : LF ∉ s -> LF ∉ padStart w s.
Proof.
  intros Hs. unfold padStart. apply not_elem_of_app. split; [|done].
  by intros [? _]%elem_of_replicate.
Qed.

Lemma hhmmss_no_LF (h m s : Z) : LF ∉ hhmmss h m s.
Proof.
  unfold hhmmss. rewrite !not_elem_of_app.
  repeat split;
    first [apply padStart_no_LF, toString_no_LF
          | by intros ?%list_elem_of_singleton].
Qed.

Lemma displayText_no_LF (data : DateOrMs) : LF ∉ displayText data.
Proof. destruct data; apply hhmmss_no_LF. Qed.

Section FrameSize.
Context `{StylingLaws} `{Figlet} `{Float64}.
Implicit Types (size : Size) (content footer style font : str) (st : Caches).

Lemma layout_height size content footer :
  LF ∉ footer ->
  lenZ (split LF (layout size content footer)) =
    Z.max (rows size) (lenZ (split LF content) + 1).
Proof.
  intros Hfooter. rewrite (layout_lines size content footer Hfooter).
  assert (1 <= lenZ (split LF content)) as Hpos.
  { unfold lenZ. pose proof (split_nonempty LF content).
    destruct (split LF content); [done | simpl; lia]. }
  assert (forall (A : Type) (l1 l2 : list A),
             lenZ (l1 ++ l2) = lenZ l1 + lenZ l2) as Happ.
  { intros A l1 l2. unfold lenZ. rewrite length_app. lia. }
  rewrite !Happ. unfold lenZ at 1 2 3 4.
  rewrite !length_replicate, length_fmap. fold (lenZ (split LF content)).
  set (contentHeight := lenZ (split LF content)) in *. clearbody contentHeight.
  match goal with |- context [lenZ [?x]] => change (lenZ [x]) with 1 end.
  destruct (Z.le_gt_cases 0 (rows size - 1 - contentHeight)) as [Hfits|Hover].
  - assert (0 <= (rows size - 1 - contentHeight) / 2) by (apply Z.div_pos; lia).
    pose proof (Z.div_mod (rows size - 1 - contentHeight) 2 ltac:(lia)).
    pose proof (Z.mod_pos_bound (rows size - 1 - contentHeight) 2 ltac:(lia)).
    lia.
  - assert ((rows size - 1 - contentHeight) / 2 < 0)
      by (apply Z.div_lt_upper_bound; lia).
    lia.
Qed.

(** X9. The frame has [max(rows, contentHeight + 1)] lines: exactly the
    terminal's rows while the content and the footer fit, and, when the
    content is too high, the content lines and the footer with no blank
    line before, between or after them -- the frame is then higher than
    the terminal. *)
Theorem render_frame_height data style (label : option str) font
    (isPaused useGlyphs : bool) size st :
  let frame := fst (render data style label font isPaused useGlyphs size st) in
  let content :=
    fst (renderContent data style label font isPaused useGlyphs size st) in
  let contentHeight := lenZ (split LF content) in
  lenZ (split LF frame) = Z.max (rows size) (contentHeight + 1) /\
  (rows size - 1 < contentHeight ->
   split LF frame =
     ((fun line =>
         spaces (Z.max 0 ((columns size -
                           Math_max (visibleLength <$> split LF content)) / 2 +
                          (Math_max (visibleLength <$> split LF content) -
                           visibleLength line) / 2)) ++ line)
        <$> split LF content) ++
     [footerLine size (footerText style (isNumber data) useGlyphs)]).
Proof.
  intros frame content contentHeight. subst frame. rewrite render_frame.
  fold content.
  pose proof (footerText_no_LF style (isNumber data) useGlyphs) as Hfooter.
  split; [by apply layout_height|].
  intros Hover. rewrite (layout_lines size content _ Hfooter).
  fold contentHeight.
  assert ((rows size - 1 - contentHeight) / 2 < 0)
    by (apply Z.div_lt_upper_bound; lia).
  rewrite (Z.max_l 0 ((rows size - 1 - contentHeight) / 2)) by lia.
  rewrite (Z.max_l 0 (rows size - 1 - (0 + contentHeight))) by lia.
  done.
Qed.


(** X11. In the text style the content is the body line, below the
    label line when there is a label and the pause banner when paused:
    at most three lines, so on a terminal of four rows or more the frame
    has exactly the terminal's rows. *)
Theorem render_text_height data style (label : option str) font
    (isPaused useGlyphs : bool) size st :
  style <> DIGITAL -> style <> ANALOG ->
  (forall l, label = Some l -> LF ∉ l) ->
  let content :=
    fst (renderContent data style label font isPaused useGlyphs size st) in
  let labelled :=
    match label with Some (_ :: _) => true | _ => false end in
  lenZ (split LF content) =
    (if labelled then 1 else 0) + (if isPaused then 1 else 0) + 1 /\
  last (split LF content) =
    Some (chalk bold_bgBlack_white (lit "  " ++ displayText data ++ lit "  ")) /\
  (4 <= rows size ->
   lenZ (split LF (fst (render data style label font isPaused useGlyphs
                          size st))) = rows size).
Proof.
  intros Hd Ha Hlabel content labelled.
  set (body := chalk bold_bgBlack_white
                 (lit "  " ++ displayText data ++ lit "  ")).
  assert (LF ∉ body) as Hbody.
  { apply chalk_no_LF. rewrite !not_elem_of_app.
    repeat split; [by apply no_LF_check | apply displayText_no_LF
                  | by apply no_LF_check]. }
  assert (content = contentHeader label isPaused ++ body) as Hcontent.
  { subst content. unfold renderContent, styleFit, mbind, M_bind, mret, M_ret.
    rewrite (bool_decide_eq_false_2 _ Hd), (bool_decide_eq_false_2 _ Ha).
    cbn [fst snd]. by rewrite renderBody_other. }
  assert (exists header : list str,
             contentHeader label isPaused =
               concat ((fun l => l ++ [LF]) <$> header) /\
             Forall (fun l => LF ∉ l) header /\
             lenZ header =
               (if labelled then 1 else 0) + (if isPaused then 1 else 0))
    as (header & Hheader & Hlines & Hcount).
  { assert (LF ∉ chalk bgRed_white_bold (lit " PAUSED ")) as Hpaused
      by (apply chalk_no_LF; by apply no_LF_check).
    assert (forall l : str, LF ∉ l -> Forall (fun l => LF ∉ l) [l]) as Hone
      by (intros l Hl; by apply Forall_cons_2).
    unfold contentHeader. subst labelled.
    destruct label as [[|c l]|]; destruct isPaused;
      rewrite ?(bool_decide_eq_true_2 (@nil N = [])),
        ?(bool_decide_eq_false_2 (c :: l = [])) by done;
      cbn [app].
    - exists [chalk bgRed_white_bold (lit " PAUSED ")].
      split; [cbn [fmap list_fmap concat]; by rewrite app_nil_r|].
      split; [by apply Hone | done].
    - by exists [].
    - assert (LF ∉ chalk cyan (c :: l)) by (apply chalk_no_LF; by apply Hlabel).
      exists [chalk cyan (c :: l); chalk bgRed_white_bold (lit " PAUSED ")].
      split; [cbn [fmap list_fmap concat]; by rewrite app_nil_r, <- !app_assoc|].
      split; [|done]. apply Forall_cons_2; [done | by apply Hone].
    - assert (LF ∉ chalk cyan (c :: l)) by (apply chalk_no_LF; by apply Hlabel).
      exists [chalk cyan (c :: l)].
      split; [cbn [fmap list_fmap concat]; by rewrite !app_nil_r|].
      split; [by apply Hone | done].
    - exists [chalk bgRed_white_bold (lit " PAUSED ")].
      split; [cbn [fmap list_fmap concat]; by rewrite app_nil_r|].
      split; [by apply Hone | done].
    - by exists []. }
  assert (split LF content = header ++ [body]) as Hsplit.
  { rewrite Hcontent, Hheader. by apply split_lines. }
  assert (lenZ (split LF content) =
          (if labelled then 1 else 0) + (if isPaused then 1 else 0) + 1)
    as Hheight.
  { rewrite Hsplit. unfold lenZ in *. rewrite length_app. simpl. lia. }
  split; [exact Hheight|]. split; [rewrite Hsplit; apply last_snoc|].
  intros Hrows. rewrite render_frame. fold content.
  rewrite layout_height by apply footerText_no_LF.
  rewrite Hheight. destruct labelled, isPaused; lia.
Qed.

End FrameSize.

Lemma render_frame_height_witness :
  lenZ (split LF (fst (render
          (H := Ref.styling) (H0 := Ref.figlet2) (H1 := Ref.floatQ)
          (AMs 65000) TEXT (Some (lit "My Timer")) (lit "Standard")
          true false (mkSize 2 80) noCaches))) =
  Z.max 2
    (lenZ (split LF (fst (renderContent
             (H := Ref.styling) (H0 := Ref.figlet2) (H1 := Ref.floatQ)
             (AMs 65000) TEXT (Some (lit "My Timer")) (lit "Standard")
             true false (mkSize 2 80) noCaches))) + 1).
Proof.
  exact (proj1 (render_frame_height (H := Ref.styling) (H0 := ref_styling_laws)
                  (H1 := Ref.figlet2) (H2 := Ref.floatQ)
                  (AMs 65000) TEXT (Some (lit "My Timer")) (lit "Standard")
                  true false (mkSize 2 80) noCaches)).
Defined.


Lemma render_text_height_witness :
  lenZ (split LF (fst (renderContent
          (H := Ref.styling) (H0 := Ref.figlet2) (H1 := Ref.floatQ)
          (AMs 65000) TEXT (Some (lit "My Timer")) (lit "Standard")
          true false (mkSize 24 80) noCaches))) = 1 + 1 + 1.
Proof.
  apply (render_text_height (H := Ref.styling) (H0 := ref_styling_laws)
           (H1 := Ref.figlet2) (H2 := Ref.floatQ)
           (AMs 65000) TEXT (Some (lit "My Timer")) (lit "Standard")
           true false (mkSize 24 80) noCaches).
  - exact TEXT_ne_DIGITAL.
  - exact TEXT_ne_ANALOG.
  - intros l Hl. apply (inj Some) in Hl. subst l. by apply no_LF_check.
Defined.

(** ** What the analog face depends on *)

Section AnalogInputs.
Context `{Styling} `{Float64}.

Lemma getAnalogClock_handTime data data' (isTimer isTimer' useGlyphs : bool) :
  handTime data isTimer = handTime data' isTimer' ->
  getAnalogClock data isTimer useGlyphs =
  getAnalogClock data' isTimer' useGlyphs.
Proof.
  intros Heq. unfold getAnalogClock, analogBoard. by rewrite Heq.
Qed.

Lemma rem_period (a b n : Z) :
  0 <= a -> 0 <= b -> 0 < n -> a mod n = b mod n -> Z.rem a n = Z.rem b n.
Proof. intros Ha Hb Hn Heq. rewrite !Z.rem_mod_nonneg by lia. exact Heq. Qed.


(** X13. The analog face of a clock shows the hour modulo twelve: two
    times of day with the same minutes and seconds whose hours differ by
    twelve give the same face. *)
Theorem analog_clock_period (h h' m s : Z) (useGlyphs : bool) :
  0 <= h -> 0 <= h' -> h mod 12 = h' mod 12 ->
  getAnalogClock (ADate (mkDate h m s)) false useGlyphs =
  getAnalogClock (ADate (mkDate h' m s)) false useGlyphs.
Proof.
  intros Hh Hh' Hperiod. apply getAnalogClock_handTime.
  cbn [handTime getHours getMinutes getSeconds].
  by rewrite (rem_period h h' 12) by lia.
Qed.


End AnalogInputs.


Lemma analog_clock_period_witness :
  getAnalogClock (H := Ref.styling) (H0 := Ref.floatQ)
    (ADate (mkDate 22 30 15)) false true =
  getAnalogClock (H := Ref.styling) (H0 := Ref.floatQ)
    (ADate (mkDate 10 30 15)) false true.
Proof.
  apply (analog_clock_period (H := Ref.styling) (H0 := Ref.floatQ)
           22 10 30 15 true); [lia..|reflexivity].
Defined.

(** ** The application: keys, intervals and exits *)

Section AppFacts.
Import App.
Implicit Types (a : State) (effects : list Effect) (key : Key)
  (duration : option str) (parsed : option Z) (now : Z).

Lemma when_first (act : State -> State * list Effect) a :
  when true act (a, []) = act a.
Proof. unfold when. cbn [fst snd]. by destruct (act a). Qed.

Lemma when_skip (act : State -> State * list Effect)
    (acc : State * list Effect) :
  when false act acc = acc.
Proof. done. Qed.

Lemma named_other key (s s' : string) :
  lit s ≠ lit s' -> named key s = true -> named key s' = false.
Proof.
  intros Hne Hs%bool_decide_eq_true. unfold named. rewrite Hs.
  apply bool_decide_eq_false_2. intros Heq. by apply (inj Some) in Heq.
Qed.

Ltac other_keys Hs :=
  match type of Hs with
  | named ?k ?s = true =>
      repeat match goal with
        | |- context [named k ?s'] =>
            rewrite (named_other k s s' ltac:(vm_compute; discriminate) Hs)
        end
  end.

Ltac one_action :=
  rewrite ?andb_false_r, ?orb_false_r; cbn [orb andb];
  rewrite ?when_skip, when_first.

(** The guards of the keypress handler exclude one another: a key runs
    at most one action. *)
Lemma handleKey_cases duration parsed now key a :
  let truthy := match duration with Some (_ :: _) => true | _ => false end in
  (named key "q" || (ctrl key && named key "c") = true /\
   handleKey duration parsed now key a = quit a) \/
  (named key "d" = true /\
   handleKey duration parsed now key a = setStyle DIGITAL a) \/
  (named key "a" = true /\
   handleKey duration parsed now key a = setStyle ANALOG a) \/
  (named key "t" = true /\
   handleKey duration parsed now key a = setStyle TEXT a) \/
  (named key "f" = true /\
   handleKey duration parsed now key a = cycleFont a) \/
  (named key "g" = true /\
   handleKey duration parsed now key a = toggleGlyphs a) \/
  (named key "r" = true /\ truthy = true /\
   handleKey duration parsed now key a =
     resetTimer (default 0 parsed) now a) \/
  (named key "space" = true /\
   handleKey duration parsed now key a = togglePause now a) \/
  (named key "q" || (ctrl key && named key "c") = false /\
   named key "d" = false /\ named key "a" = false /\ named key "t" = false /\
   named key "f" = false /\ named key "g" = false /\
   named key "r" && truthy = false /\ named key "space" = false /\
   handleKey duration parsed now key a = (a, [])).
Proof.
  intros truthy. unfold handleKey. fold truthy. clearbody truthy.
  destruct (named key "q") eqn:Hq.
  { left. split; [done|]. other_keys Hq. by one_action. }
  destruct (named key "d") eqn:Hd.
  { right; left. split; [done|]. other_keys Hd. by one_action. }
  destruct (named key "a") eqn:Ha.
  { do 2 right; left. split; [done|]. other_keys Ha. by one_action. }
  destruct (named key "t") eqn:Ht.
  { do 3 right; left. split; [done|]. other_keys Ht. by one_action. }
  destruct (named key "f") eqn:Hf.
  { do 4 right; left. split; [done|]. other_keys Hf. by one_action. }
  destruct (named key "g") eqn:Hg.
  { do 5 right; left. split; [done|]. other_keys Hg. by one_action. }
  destruct (named key "space") eqn:Hs.
  { do 7 right; left. split; [done|]. other_keys Hs. by one_action. }
  destruct (named key "r") eqn:Hr.
  { other_keys Hr. destruct truthy.
    - do 6 right; left. split; [done|]. split; [done|]. by one_action.
    - do 8 right. rewrite ?andb_false_r. cbn [orb andb].
      by rewrite ?when_skip. }
  cbn [orb andb]. destruct (ctrl key && named key "c") eqn:Hc.
  - left. split; [done|]. by one_action.
  - do 8 right. by rewrite ?when_skip.
Qed.

(** The interval part of [consistent]. *)
Lemma cleanup_clears a :
  (scheduled a = [] \/ exists h, scheduled a = [h] /\ interval a = Some h) ->
  scheduled (cleanup a) = [].
Proof.
  intros [Hnone|(h & Hone & Hint)]; unfold cleanup.
  - destruct (interval a); [|done]. cbn [clearInterval scheduled].
    by rewrite Hnone.
  - rewrite Hint. cbn [clearInterval scheduled]. rewrite Hone.
    rewrite filter_cons. by rewrite decide_False by (intros Hne; by apply Hne).
Qed.

Lemma cleanup_fields a :
  style (cleanup a) = style a /\ fontIndex (cleanup a) = fontIndex a /\
  useGlyphs (cleanup a) = useGlyphs a /\ fonts (cleanup a) = fonts a /\
  label (cleanup a) = label a /\ mode (cleanup a) = mode a /\
  endTime (cleanup a) = endTime a /\ isPaused (cleanup a) = isPaused a /\
  remainingMs (cleanup a) = remainingMs a /\
  nextHandle (cleanup a) = nextHandle a.
Proof. unfold cleanup. by destruct (interval a). Qed.

Lemma cleanup_consistent a : consistent a -> consistent (cleanup a).
Proof.
  intros [Hsched Hpaused].
  pose proof (cleanup_clears a Hsched) as Hclear.
  destruct (cleanup_fields a) as (_ & _ & _ & _ & _ & Hmode & _ & Hp & _).
  split; [by left|]. rewrite Hp, Hmode, Hclear. intros Hyes.
  by destruct (Hpaused Hyes).
Qed.

Lemma startTimer_consistent (durationMs : Z) now a :
  consistent a -> consistent (fst (startTimer durationMs now a)).
Proof.
  intros [Hsched _]. pose proof (cleanup_clears a Hsched) as Hclear.
  unfold startTimer. cbn [fst]. split.
  - right. exists (nextHandle (cleanup a)).
    cbn [setIntervalTick setTimer scheduled interval nextHandle].
    by rewrite Hclear.
  - by cbn [setIntervalTick setTimer isPaused].
Qed.

Lemma setConfig_consistent a (style' : str) (fontIndex' : Z)
    (useGlyphs' : bool) :
  consistent a -> consistent (setConfig a style' fontIndex' useGlyphs').
Proof. done. Qed.

Lemma handleKey_consistent duration parsed now key a :
  consistent a -> consistent (fst (handleKey duration parsed now key a)).
Proof.
  intros Hok.
  destruct (handleKey_cases duration parsed now key a)
    as [[_ ->]|[[_ ->]|[[_ ->]|[[_ ->]|[[_ ->]|[[_ ->]|[(_ & _ & ->)|
        [[_ ->]|(_ & _ & _ & _ & _ & _ & _ & _ & ->)]]]]]]]]; try done.
  - unfold setStyle. by destruct (bool_decide _).
  - unfold setStyle. by destruct (bool_decide _).
  - unfold setStyle. by destruct (bool_decide _).
  - unfold cycleFont. by destruct (bool_decide _).
  - unfold toggleGlyphs. by destruct (bool_decide _).
  - unfold resetTimer. destruct (mode a); [done|].
    by apply startTimer_consistent.
  - unfold togglePause. destruct (mode a) eqn:Hmode; [done|].
    destruct (isPaused a) eqn:Hpaused.
    + apply startTimer_consistent. destruct Hok as [Hsched _]. by split.
    + cbn [fst]. destruct Hok as [Hsched _].
      set (a1 := setTimer a timer (endTime a) true (endTime a - now)).
      pose proof (cleanup_clears a1 Hsched) as Hclear.
      destruct (cleanup_fields a1) as (_ & _ & _ & _ & _ & Hm & _).
      split; [by left|]. intros _. by rewrite Hclear, Hm.
Qed.

Lemma tick_consistent now (date : Date) a :
  consistent a -> consistent (fst (tick now date a)).
Proof.
  intros Hok. unfold tick.
  destruct (mode a); [done|]. destruct (isPaused a); [done|].
  destruct (_ <=? _); [|done]. by apply cleanup_consistent.
Qed.

Lemma step_consistent duration parsed (acc : State * list Effect)
    (ev : Event) :
  consistent (fst acc) -> consistent (fst (step duration parsed acc ev)).
Proof.
  intros Hok. unfold step. destruct (exits (snd acc)); [done|].
  destruct ev as [key now|now date].
  - pose proof (handleKey_consistent duration parsed now key _ Hok) as Hnext.
    by destruct (handleKey duration parsed now key (fst acc)).
  - destruct (scheduled (fst acc)) eqn:Hsched; [done|].
    pose proof (tick_consistent now date _ Hok) as Hnext.
    by destruct (tick now date (fst acc)).
Qed.

Lemma start_consistent duration parsed now a :
  consistent a -> isPaused a = false ->
  consistent (fst (start duration parsed now a)).
Proof.
  intros Hok Hrun. unfold start.
  assert (consistent (fst (startClock a))) as Hclock.
  { destruct Hok as [Hsched _]. pose proof (cleanup_clears a Hsched) as Hclear.
    destruct (cleanup_fields a) as (_ & _ & _ & _ & _ & _ & _ & Hp & _).
    unfold startClock. cbn [fst]. split.
    - right. exists (nextHandle (cleanup a)).
      cbn [setIntervalTick setTimer scheduled interval nextHandle].
      by rewrite Hclear.
    - cbn [setIntervalTick setTimer isPaused]. by rewrite Hp, Hrun. }
  destruct duration as [[|c d]|]; [done| |done].
  destruct parsed as [ms|]; [|done].
  destruct (ms =? 0); [done|]. by apply startTimer_consistent.
Qed.

Lemma foldl_invariant {A B} (P : A -> Prop) (f : A -> B -> A) (l : list B)
    (x : A) :
  (forall x b, P x -> P (f x b)) -> P x -> P (foldl f x l).
Proof.
  intros Hstep. revert x. induction l as [|b l IH]; [done|].
  intros x Hx. cbn [foldl]. by apply IH, Hstep.
Qed.

(** X15. In every state a run of the application reaches, at most one
    interval is scheduled, it is the one the state holds in [interval],
    and none is scheduled while the timer is paused: restarting, pausing
    and resuming never leave a second ticker behind. *)
Theorem run_consistent duration parsed now (events : list Event)
    (style0 : str) (fontIndex0 : Z) (useGlyphs0 : bool)
    (label0 : option str) (fonts0 : list str) :
  consistent
    (fst (run duration parsed now events
            (new style0 fontIndex0 useGlyphs0 label0 fonts0))).
Proof.
  unfold run.
  apply (foldl_invariant (fun acc => consistent (fst acc))).
  - intros acc ev. apply step_consistent.
  - apply start_consistent; [|done]. split; [by left | done].
Qed.

Lemma startTimer_fields (durationMs : Z) now a :
  (scheduled a = [] \/ exists h, scheduled a = [h] /\ interval a = Some h) ->
  let a' := fst (startTimer durationMs now a) in
  mode a' = timer /\ endTime a' = now + durationMs /\ isPaused a' = false /\
  scheduled a' = [nextHandle a] /\ interval a' = Some (nextHandle a) /\
  settings a' = settings a /\ label a' = label a /\ fonts a' = fonts a /\
  snd (startTimer durationMs now a) = initDisplay.
Proof.
  intros Hsched. pose proof (cleanup_clears a Hsched) as Hclear.
  destruct (cleanup_fields a) as (Hs & Hi & Hg & Hf & Hl & _ & _ & _ & _ & Hn).
  unfold startTimer, settings.
  cbn [fst snd setIntervalTick setTimer mode endTime isPaused scheduled
       interval style fontIndex useGlyphs label fonts nextHandle].
  by rewrite Hclear, Hs, Hi, Hg, Hf, Hl, Hn.
Qed.

Lemma pause_fields now a :
  (scheduled a = [] \/ exists h, scheduled a = [h] /\ interval a = Some h) ->
  mode a = timer -> isPaused a = false ->
  let a' := fst (togglePause now a) in
  mode a' = timer /\ isPaused a' = true /\ remainingMs a' = endTime a - now /\
  scheduled a' = [] /\ settings a' = settings a /\ label a' = label a /\
  fonts a' = fonts a /\
  snd (togglePause now a) =
    [Render (AMs (endTime a - now)) (style a) (Some (lit "PAUSED"))
       (currentFont a) true (useGlyphs a)].
Proof.
  intros Hsched Hmode Hrun.
  set (a1 := setTimer a timer (endTime a) true (endTime a - now)).
  assert (togglePause now a =
          (cleanup a1,
           [Render (AMs (remainingMs (cleanup a1))) (style (cleanup a1))
              (Some (lit "PAUSED")) (currentFont (cleanup a1)) true
              (useGlyphs (cleanup a1))])) as ->.
  { unfold togglePause. by rewrite Hmode, Hrun. }
  pose proof (cleanup_clears a1 Hsched) as Hclear.
  destruct (cleanup_fields a1)
    as (Hs & Hi & Hg & Hf & Hl & Hm & He & Hp & Hr & Hn).
  unfold settings, currentFont. cbn [fst snd].
  by rewrite Hclear, Hs, Hi, Hg, Hf, Hl, Hm, Hp, Hr.
Qed.

(** X16. Pausing a running timer freezes the time left: the pause
    frame shows it, no tick is scheduled while paused, and after the
    resume the timer ends as far from the resume as it was from the
    pause -- whatever the time spent paused. *)
Theorem pause_resume now now' a :
  consistent a -> mode a = timer -> isPaused a = false ->
  let paused := togglePause now a in
  let resumed := togglePause now' (fst paused) in
  snd paused =
    [Render (AMs (endTime a - now)) (style a) (Some (lit "PAUSED"))
       (currentFont a) true (useGlyphs a)] /\
  isPaused (fst paused) = true /\ scheduled (fst paused) = [] /\
  snd resumed = initDisplay /\
  isPaused (fst resumed) = false /\ mode (fst resumed) = timer /\
  endTime (fst resumed) - now' = endTime a - now /\
  (exists h, scheduled (fst resumed) = [h] /\
             interval (fst resumed) = Some h) /\
  settings (fst resumed) = settings a.
Proof.
  intros [Hsched _] Hmode Hrun paused resumed.
  destruct (pause_fields now a Hsched Hmode Hrun)
    as (Hm & Hp & Hr & Hclear & Hset & _ & _ & Hframe).
  fold paused in Hm, Hp, Hr, Hclear, Hset, Hframe.
  split; [exact Hframe|]. split; [exact Hp|]. split; [exact Hclear|].
  assert (resumed =
          startTimer (remainingMs (fst paused)) now'
            (setTimer (fst paused) timer (endTime (fst paused)) false
               (remainingMs (fst paused)))) as ->.
  { subst resumed. unfold togglePause at 1. by rewrite Hm, Hp. }
  destruct (startTimer_fields (remainingMs (fst paused)) now'
              (setTimer (fst paused) timer (endTime (fst paused)) false
                 (remainingMs (fst paused))))
    as (Hm2 & He2 & Hp2 & Hs2 & Hi2 & Hset2 & _ & _ & Heff2).
  { left. exact Hclear. }
  split; [exact Heff2|]. split; [exact Hp2|]. split; [exact Hm2|].
  split; [rewrite He2, Hr; lia|]. split; [by eauto|].
  by rewrite Hset2, <- Hset.
Qed.

(** *** The shape of a run *)

Lemma exits_app effects effects' :
  exits (effects ++ effects') = exits effects || exits effects'.
Proof. apply existsb_app. Qed.

Lemma writesOf_app effects effects' :
  writesOf (effects ++ effects') = writesOf effects ++ writesOf effects'.
Proof. apply omap_app. Qed.

Lemma entered_again (k : nat) :
  entered k ++ [cursorHide; enterAlternateScreen] = entered (S k).
Proof.
  unfold entered. induction k as [|k IH]; [done|].
  cbn [replicate concat]. rewrite <- app_assoc, IH. done.
Qed.

Lemma live_exits effects : Forall liveEffect effects -> exits effects = false.
Proof.
  induction 1 as [|e effects He _ IH]; [done|].
  cbn [exits existsb]. fold (exits effects). rewrite IH.
  by destruct e.
Qed.

Lemma live_frame (e : Effect) (ms : Z) :
  liveEffect e -> runningFrame e = Some ms -> 0 < ms.
Proof.
  destruct e as [[date|ms'] ? ? ? [] ?| | | | | |]; try done.
  cbn [liveEffect runningFrame]. by intros ? [= ->].
Qed.

Lemma handleKey_effects duration parsed now key a :
  label (fst (handleKey duration parsed now key a)) = label a /\
  (snd (handleKey duration parsed now key a) = quitTail \/
   Forall liveEffect (snd (handleKey duration parsed now key a)) /\
   (writesOf (snd (handleKey duration parsed now key a)) = [] \/
    writesOf (snd (handleKey duration parsed now key a)) =
      [cursorHide; enterAlternateScreen])).
Proof.
  assert (forall (d : Z) a0,
             label (fst (startTimer d now a0)) = label a0 /\
             snd (startTimer d now a0) = initDisplay) as Hstart.
  { intros d a0. split; [|done]. unfold startTimer.
    cbn [fst setIntervalTick setTimer label].
    by destruct (cleanup_fields a0) as (_ & _ & _ & _ & -> & _). }
  assert (Forall liveEffect initDisplay) as Hinit
    by (by repeat apply Forall_cons_2).
  destruct (handleKey_cases duration parsed now key a)
    as [[_ ->]|[[_ ->]|[[_ ->]|[[_ ->]|[[_ ->]|[[_ ->]|[(_ & _ & ->)|
        [[_ ->]|(_ & _ & _ & _ & _ & _ & _ & _ & ->)]]]]]]]].
  - split; [done|]. by left.
  - unfold setStyle. destruct (bool_decide _); (split; [done|]); right;
      (split; [|by left]); [done | by apply Forall_cons_2].
  - unfold setStyle. destruct (bool_decide _); (split; [done|]); right;
      (split; [|by left]); [done | by apply Forall_cons_2].
  - unfold setStyle. destruct (bool_decide _); (split; [done|]); right;
      (split; [|by left]); [done | by apply Forall_cons_2].
  - unfold cycleFont. destruct (bool_decide _); (split; [done|]); right;
      (split; [|by left]); [by apply Forall_cons_2 | done].
  - unfold toggleGlyphs. destruct (bool_decide _); (split; [done|]); right;
      (split; [|by left]); [by apply Forall_cons_2 | done].
  - unfold resetTimer. destruct (mode a).
    + split; [done|]. right. split; [done | by left].
    + destruct (Hstart (default 0 parsed) a) as [-> ->].
      split; [done|]. right. split; [exact Hinit | by right].
  - unfold togglePause. destruct (mode a).
    { split; [done|]. right. split; [done | by left]. }
    destruct (isPaused a).
    + match goal with |- context [startTimer ?d now ?a0] =>
        destruct (Hstart d a0) as [-> ->] end.
      split; [done|]. right. split; [exact Hinit | by right].
    + cbn [fst snd]. split.
      * by destruct (cleanup_fields
                       (setTimer a timer (endTime a) true (endTime a - now)))
          as (_ & _ & _ & _ & -> & _).
      * right. split; [by apply Forall_cons_2 | by left].
  - split; [done|]. right. split; [done | by left].
Qed.

Lemma tick_effects now (date : Date) a :
  label (fst (tick now date a)) = label a /\
  (snd (tick now date a) = finishTail a \/
   Forall liveEffect (snd (tick now date a)) /\
   writesOf (snd (tick now date a)) = []).
Proof.
  unfold tick. destruct (mode a).
  { split; [done|]. right. split; [by apply Forall_cons_2 | done]. }
  destruct (isPaused a).
  { split; [done|]. right. by split. }
  destruct (endTime a - now <=? 0) eqn:Hleft.
  - unfold finish. cbn [fst snd]. split; [|by left].
    by destruct (cleanup_fields a) as (_ & _ & _ & _ & -> & _).
  - apply Z.leb_gt in Hleft. split; [done|]. right. split; [|done].
    apply Forall_cons_2; [exact Hleft | done].
Qed.

Lemma runShape_more (lbl : str) a' effects new :
  label a' = lbl ->
  exits effects = false -> Forall liveEffect effects ->
  (exists k, writesOf effects = entered (S k)) ->
  Forall liveEffect new ->
  writesOf new = [] \/ writesOf new = [cursorHide; enterAlternateScreen] ->
  runShape lbl (a', effects ++ new).
Proof.
  intros Hlbl Halive Hlive [k Hwrites] Hnew Hw. split; [exact Hlbl|].
  left. cbn [snd]. rewrite exits_app, Halive, (live_exits new Hnew).
  split; [done|]. split; [by apply Forall_app|].
  rewrite writesOf_app, Hwrites. destruct Hw as [->| ->].
  - exists k. by rewrite app_nil_r.
  - exists (S k). by rewrite entered_again.
Qed.

Lemma runShape_step (lbl : str) duration parsed
    (acc : State * list Effect) (ev : Event) :
  runShape lbl acc -> runShape lbl (step duration parsed acc ev).
Proof.
  intros Hshape. unfold step.
  destruct (exits (snd acc)) eqn:Hexits; [exact Hshape|].
  destruct Hshape as [Hlbl [(_ & Hlive & Hwrites)|[Herr|Hdead]]]; cycle 1.
  { rewrite Herr in Hexits. done. }
  { destruct Hdead as (pre & tail & k & Heq & _ & _ & [->|(a' & _ & ->)]);
      rewrite Heq, exits_app in Hexits;
      apply orb_false_iff in Hexits as [_ Hexits]; done. }
  destruct acc as [a effects]. cbn [fst snd] in *.
  destruct ev as [key now|now date].
  - destruct (handleKey_effects duration parsed now key a) as [Hl Hnew].
    destruct (handleKey duration parsed now key a) as [a' new].
    cbn [fst snd] in *. destruct Hnew as [->|[Hnew Hw]].
    + split; [cbn [fst]; by rewrite Hl|]. right; right.
      destruct Hwrites as [k Hk].
      exists effects, quitTail, k. cbn [snd]. by eauto.
    + apply runShape_more; [by rewrite Hl | done..].
  - destruct (scheduled a) eqn:Hsched.
    { split; [done|]. left. by eauto. }
    destruct (tick_effects now date a) as [Hl Hnew].
    destruct (tick now date a) as [a' new].
    cbn [fst snd] in *. destruct Hnew as [->|[Hnew Hw]].
    + split; [cbn [fst]; by rewrite Hl|]. right; right.
      destruct Hwrites as [k Hk].
      exists effects, (finishTail a), k. cbn [snd].
      split; [done|]. split; [done|]. split; [done|]. right. by eauto.
    + apply runShape_more; [by rewrite Hl | done.. | by left].
Qed.

Lemma runShape_start duration parsed now a :
  runShape (label a) (start duration parsed now a).
Proof.
  assert (Forall liveEffect initDisplay) as Hinit
    by (by repeat apply Forall_cons_2).
  assert (forall a', label a' = label a -> runShape (label a) (a', initDisplay))
    as Hlive.
  { intros a' Hl. split; [exact Hl|]. left.
    split; [done|]. split; [exact Hinit|]. by exists 0%nat. }
  assert (runShape (label a) (a, errorTail)) as Herror.
  { split; [done|]. right. by left. }
  assert (runShape (label a) (startClock a)) as Hclock.
  { apply Hlive. unfold startClock. cbn [setIntervalTick setTimer label].
    by destruct (cleanup_fields a) as (_ & _ & _ & _ & -> & _). }
  unfold start. destruct duration as [[|c d]|]; [done| |done].
  destruct parsed as [ms|]; [|exact Herror].
  destruct (ms =? 0); [exact Herror|].
  apply Hlive. unfold startTimer. cbn [fst setIntervalTick setTimer label].
  by destruct (cleanup_fields a) as (_ & _ & _ & _ & -> & _).
Qed.

Lemma run_shape duration parsed now (events : list Event) a :
  runShape (label a) (run duration parsed now events a).
Proof.
  unfold run. apply (foldl_invariant (runShape (label a))).
  - intros acc ev. apply runShape_step.
  - apply runShape_start.
Qed.

(** X17. A running timer never shows a time that is up before it
    finishes.  In every run, a frame of the timer that is not a pause
    frame shows a positive remaining time, hence a text other than
    ["00:00:00"] -- except the one frame of [finish], which shows zero
    and is followed by nothing but the end of the display, the
    notification naming the label, and the exit. *)
Theorem run_countdown duration parsed now (events : list Event)
    (style0 : str) (fontIndex0 : Z) (useGlyphs0 : bool)
    (label0 : option str) (fonts0 : list str) (i : nat) (e : Effect)
    (ms : Z) :
  let effects :=
    snd (run duration parsed now events
           (new style0 fontIndex0 useGlyphs0 label0 fonts0)) in
  effects !! i = Some e -> runningFrame e = Some ms ->
  (0 < ms /\ displayText (AMs ms) ≠ lit "00:00:00") \/
  (ms = 0 /\
   drop (S i) effects = farewell (default (lit "Timer") label0)).
Proof.
  intros effects Hi Hframe.
  assert (forall e', liveEffect e' -> runningFrame e' = Some ms ->
                     0 < ms /\ displayText (AMs ms) ≠ lit "00:00:00")
    as Hlive.
  { intros e' He' Hms. pose proof (live_frame e' ms He' Hms) as Hpos.
    split; [exact Hpos | by apply formatDuration_positive]. }
  pose proof (run_shape duration parsed now events
                (new style0 fontIndex0 useGlyphs0 label0 fonts0)) as Hshape.
  unfold runShape in Hshape. fold effects in Hshape. clearbody effects.
  destruct Hshape as [_ [(_ & Hall & _)|[Herr|Hdead]]].
  - left. apply (Hlive e); [|done].
    by apply (Forall_lookup_1 _ _ _ _ Hall Hi).
  - rewrite Herr in Hi. destruct i as [|[|i]]; [| |done].
    + injection Hi as <-. done.
    + injection Hi as <-. done.
  - destruct Hdead as (pre & tail & k & Heq & Hall & _ & Htail).
    rewrite Heq in Hi |- *.
    destruct (decide (i < length pre)%nat) as [Hin|Hout].
    { left. rewrite lookup_app_l in Hi by done. apply (Hlive e); [|done].
      by apply (Forall_lookup_1 _ _ _ _ Hall Hi). }
    rewrite lookup_app_r in Hi by lia.
    destruct Htail as [->|(a & Hlabel & ->)].
    { destruct (i - length pre)%nat as [|[|[|j]]]; [| | |done];
        injection Hi as <-; done. }
    destruct (i - length pre)%nat as [|j] eqn:Hj.
    + right. cbn [finishTail lookup list_lookup] in Hi. injection Hi as <-.
      cbn [runningFrame] in Hframe. injection Hframe as <-.
      split; [done|]. assert (i = length pre) as -> by lia.
      change (label a = default (lit "Timer") label0) in Hlabel.
      rewrite <- Hlabel. clear.
      induction pre as [|x pre IH]; [done|]. exact IH.
    + unfold finishTail, farewell in Hi.
      destruct j as [|[|[|[|[|j]]]]]; [| | | | |done];
        injection Hi as <-; done.
Qed.


(** *** Settings *)







(** X20. The keys that change settings leave the countdown alone: a key
    other than quit, reset and pause keeps the mode, the end time, the
    pause flag and the scheduled ticker, writes nothing to the terminal
    and does not exit; and a key that is none of the nine the handler
    knows does nothing at all. *)
Theorem handleKey_settings_only duration parsed now key a :
  named key "q" = false -> ctrl key && named key "c" = false ->
  named key "r" = false -> named key "space" = false ->
  let result := handleKey duration parsed now key a in
  mode (fst result) = mode a /\ endTime (fst result) = endTime a /\
  isPaused (fst result) = isPaused a /\
  remainingMs (fst result) = remainingMs a /\
  scheduled (fst result) = scheduled a /\
  interval (fst result) = interval a /\
  (snd result = [] \/
   snd result = [SaveConfig (style (fst result)) (fontIndex (fst result))
                   (useGlyphs (fst result))]) /\
  (named key "d" = false -> named key "a" = false -> named key "t" = false ->
   named key "f" = false -> named key "g" = false -> result = (a, [])).
Proof.
  intros Hq Hc Hr Hs result. subst result.
  destruct (handleKey_cases duration parsed now key a)
    as [[Hyes ->]|[[Hyes ->]|[[Hyes ->]|[[Hyes ->]|[[Hyes ->]|[[Hyes ->]|
        [(Hyes & _ & ->)|[[Hyes ->]|(_ & _ & _ & _ & _ & _ & _ & _ & ->)]]]]]]]].
  - rewrite Hq, Hc in Hyes. done.
  - unfold setStyle. destruct (bool_decide _);
      (repeat (split; [done|])); (split; [by eauto|]); congruence.
  - unfold setStyle. destruct (bool_decide _);
      (repeat (split; [done|])); (split; [by eauto|]); congruence.
  - unfold setStyle. destruct (bool_decide _);
      (repeat (split; [done|])); (split; [by eauto|]); congruence.
  - unfold cycleFont. destruct (bool_decide _);
      (repeat (split; [done|])); (split; [by eauto|]); congruence.
  - unfold toggleGlyphs. destruct (bool_decide _);
      (repeat (split; [done|])); (split; [by eauto|]); congruence.
  - congruence.
  - congruence.
  - repeat (split; [done|]). split; [by left | done].
Qed.

(** *** Fonts and hints *)

Lemma cycleFont_digital a :
  style a = DIGITAL -> 0 <= fontIndex a -> fonts a ≠ [] ->
  cycleFont a =
    (setConfig a (style a) ((fontIndex a + 1) mod lenZ (fonts a))
       (useGlyphs a),
     [SaveConfig (style a) ((fontIndex a + 1) mod lenZ (fonts a))
        (useGlyphs a)]).
Proof.
  intros Hstyle Hindex Hfonts. unfold cycleFont.
  rewrite bool_decide_eq_true_2 by done.
  assert (0 < lenZ (fonts a)) as Hlen.
  { unfold lenZ. destruct (fonts a); [done | simpl; lia]. }
  fold (lenZ (fonts a)). by rewrite Z.rem_mod_nonneg by lia.
Qed.

Lemma cycleFonts_S (k : nat) a :
  cycleFonts (S k) a = fst (cycleFont (cycleFonts k a)).
Proof. done. Qed.

Lemma cycleFonts_index (k : nat) a :
  style a = DIGITAL -> 0 <= fontIndex a -> fonts a ≠ [] ->
  cycleFonts (S k) a =
    setConfig a (style a) ((fontIndex a + Z.of_nat (S k)) mod lenZ (fonts a))
      (useGlyphs a).
Proof.
  intros Hstyle Hindex Hfonts.
  assert (0 < lenZ (fonts a)) as Hlen.
  { unfold lenZ. destruct (fonts a); [done | simpl; lia]. }
  induction k as [|k IH].
  - rewrite cycleFonts_S. change (cycleFonts 0 a) with a.
    by rewrite cycleFont_digital.
  - rewrite cycleFonts_S, IH.
    set (i := (fontIndex a + Z.of_nat (S k)) mod lenZ (fonts a)).
    pose proof (Z.mod_pos_bound (fontIndex a + Z.of_nat (S k)) (lenZ (fonts a))
                  Hlen) as Hi. fold i in Hi.
    rewrite cycleFont_digital
      by (cbn [setConfig style fontIndex fonts]; first [lia | done]).
    cbn [fst setConfig style fontIndex useGlyphs fonts label mode interval
         endTime isPaused remainingMs scheduled nextHandle].
    f_equal. subst i. rewrite Zplus_mod_idemp_l. f_equal. lia.
Qed.

(** X21. In the digital style the font key walks round the font list:
    from a font index that is not negative, [k] presses (one at least)
    lead to the index [(fontIndex + k) mod n] for the [n] fonts, which
    names a font of the list; every press saves the new index; and from
    an index inside the list [n] presses lead back to the same state. *)
Theorem cycleFont_cycle (k : nat) a :
  style a = DIGITAL -> 0 <= fontIndex a -> fonts a ≠ [] ->
  let n := lenZ (fonts a) in
  let a' := cycleFonts (S k) a in
  fontIndex a' = (fontIndex a + Z.of_nat (S k)) mod n /\
  is_Some (currentFont a') /\
  snd (cycleFont a) =
    [SaveConfig DIGITAL ((fontIndex a + 1) mod n) (useGlyphs a)] /\
  (fontIndex a < n -> cycleFonts (length (fonts a)) a = a).
Proof.
  intros Hstyle Hindex Hfonts n a'.
  assert (0 < n) as Hlen.
  { subst n. unfold lenZ. destruct (fonts a); [done | simpl; lia]. }
  assert (forall j : nat,
             cycleFonts (S j) a =
               setConfig a (style a) ((fontIndex a + Z.of_nat (S j)) mod n)
                 (useGlyphs a)) as Hcycle
    by (intros j; by apply cycleFonts_index).
  subst a'. rewrite Hcycle. cbn [setConfig fontIndex].
  pose proof (Z.mod_pos_bound (fontIndex a + Z.of_nat (S k)) n Hlen) as Hi.
  split; [done|]. split.
  - unfold currentFont. cbn [setConfig fontIndex fonts].
    rewrite (proj2 (Z.leb_le _ _)) by lia.
    apply lookup_lt_is_Some. subst n. unfold lenZ in *. lia.
  - split; [by rewrite cycleFont_digital, Hstyle|].
    intros Hin.
    assert (exists m : nat, length (fonts a) = S m) as [m Hm].
    { destruct (fonts a); [done | by eauto]. }
    assert (n = Z.of_nat (S m)) as Hn by (subst n; unfold lenZ; by rewrite Hm).
    rewrite Hm, Hcycle.
    replace ((fontIndex a + Z.of_nat (S m)) mod n) with (fontIndex a).
    + by destruct a.
    + rewrite Hn.
      replace (fontIndex a + Z.of_nat (S m))
        with (fontIndex a + 1 * Z.of_nat (S m)) by lia.
      rewrite Z.mod_add by lia. by rewrite Z.mod_small by lia.
Qed.

(** X22. The footer advertises exactly the keys that do something.  The
    font hint is shown exactly when the font key has an effect, the
    glyph hint exactly when the glyph key has one; and a frame drawn by
    [tick] shows the reset and pause hint exactly when the pause key has
    an effect, that is in timer mode. *)
Theorem key_hints now now' (date : Date) a :
  (forall isTimer : bool,
      includes (lit "| f: Cycle Font")
        (footerText (style a) isTimer (useGlyphs a)) = true <->
      snd (cycleFont a) ≠ []) /\
  (forall isTimer : bool,
      includes (lit "| g: Glyphs (ON)")
        (footerText (style a) isTimer (useGlyphs a)) = true \/
      includes (lit "| g: Glyphs (OFF)")
        (footerText (style a) isTimer (useGlyphs a)) = true <->
      snd (toggleGlyphs a) ≠ []) /\
  (snd (togglePause now' a) ≠ [] <-> mode a = timer) /\
  (forall data style' lbl font' paused glyphs,
      Render data style' lbl font' paused glyphs ∈ snd (tick now date a) ->
      style' = style a /\ glyphs = useGlyphs a /\ font' = currentFont a /\
      (includes (lit "| r: Reset | space: Start/Pause")
         (footerText style' (isNumber data) glyphs) = true <->
       mode a = timer)).
Proof.
  split; [|split; [|split]].
  - intros isTimer.
    destruct (footerText_hints (style a) isTimer (useGlyphs a))
      as (_ & -> & _).
    unfold cycleFont. destruct (decide (style a = DIGITAL)) as [Hd|Hd].
    + by rewrite bool_decide_eq_true_2.
    + by rewrite bool_decide_eq_false_2.
  - intros isTimer.
    destruct (footerText_hints (style a) isTimer (useGlyphs a))
      as (_ & _ & -> & -> & _).
    unfold toggleGlyphs. destruct (decide (style a = ANALOG)) as [Ha|Ha].
    + rewrite bool_decide_eq_true_2 by done. split; [done|]. intros _.
      destruct (useGlyphs a); by eauto.
    + rewrite bool_decide_eq_false_2 by done. split; [|done].
      by intros [[? _]|[? _]].
  - unfold togglePause. destruct (mode a); [done|].
    by destruct (isPaused a).
  - intros data style' lbl font' paused glyphs Hin.
    destruct (footerText_hints style' (isNumber data) glyphs)
      as (_ & _ & _ & _ & ->).
    unfold tick in Hin. destruct (mode a) eqn:Hmode.
    + apply list_elem_of_singleton in Hin. by injection Hin as -> -> -> -> -> ->.
    + destruct (isPaused a); [by apply elem_of_nil in Hin|].
      destruct (_ <=? _).
      * unfold finish in Hin. cbn [snd app] in Hin.
        apply elem_of_cons in Hin as [Hin|Hin].
        -- by injection Hin as -> -> -> -> -> ->.
        -- exfalso. unfold cleanupDisplay in Hin. cbn [app] in Hin.
           repeat (apply elem_of_cons in Hin as [Hin|Hin]; [done|]).
           by apply elem_of_nil in Hin.
      * apply list_elem_of_singleton in Hin.
        by injection Hin as -> -> -> -> -> ->.
Qed.

End AppFacts.

Lemma pause_resume_witness :
  App.endTime
    (fst (App.togglePause 9000
            (fst (App.togglePause 2000
                    (fst (App.startTimer 5000 0
                            (App.new TEXT 0 false None FONTS))))))) - 9000 =
  App.endTime
    (fst (App.startTimer 5000 0 (App.new TEXT 0 false None FONTS))) - 2000.
Proof.
  destruct (pause_resume 2000 9000
              (fst (App.startTimer 5000 0 (App.new TEXT 0 false None FONTS))))
    as (_ & _ & _ & _ & _ & _ & Hleft & _).
  - split; [right; exists 0%nat; split; reflexivity|].
    intros Hpaused. discriminate Hpaused.
  - reflexivity.
  - reflexivity.
  - exact Hleft.
Defined.

Lemma run_countdown_witness :
  (0 < 4900 /\ displayText (AMs 4900) ≠ lit "00:00:00") \/
  (4900 = 0 /\
   drop 3
     (snd (App.run (Some (lit "5s")) (Some 5000) 0
             [App.Tick 100 (mkDate 10 0 0)]
             (App.new TEXT 0 false None FONTS))) =
   farewell (default (lit "Timer") None)).
Proof.
  apply (run_countdown (Some (lit "5s")) (Some 5000) 0
           [App.Tick 100 (mkDate 10 0 0)] TEXT 0 false None FONTS 2
           (App.Render (AMs 4900) TEXT (Some (lit "Timer"))
              (Some (lit "Standard")) false false) 4900);
    reflexivity.
Defined.

Lemma handleKey_settings_only_witness :
  App.endTime
    (fst (App.handleKey (Some (lit "5s")) (Some 5000) 700
            (App.mkKey (Some (lit "t")) false)
            (fst (App.startTimer 5000 0
                    (App.new DIGITAL 0 false None FONTS))))) =
  App.endTime
    (fst (App.startTimer 5000 0 (App.new DIGITAL 0 false None FONTS))).
Proof.
  destruct (handleKey_settings_only (Some (lit "5s")) (Some 5000) 700
              (App.mkKey (Some (lit "t")) false)
              (fst (App.startTimer 5000 0
                      (App.new DIGITAL 0 false None FONTS))))
    as (_ & Hend & _); [reflexivity..|].
  exact Hend.
Defined.

Lemma cycleFont_cycle_witness :
  App.fontIndex (App.cycleFonts 3 (App.new DIGITAL 5 false None FONTS)) =
  (5 + 3) mod 7.
Proof.
  destruct (cycleFont_cycle 2 (App.new DIGITAL 5 false None FONTS))
    as (Hindex & _).
  - reflexivity.
  - cbn [App.new App.fontIndex]. lia.
  - discriminate.
  - exact Hindex.
Defined.

(** ** Terminal size and the legacy renderer *)


Lemma legacy_hands_precedence_witness :
  cellAt (drawHandsLegacy (H := Ref.styling) (H0 := Ref.floatQ) (0, 0, 0)
            emptyBoard) 15 45 =
    if decide ((15%nat, 45%nat) ∈
               handCells (H := Ref.floatQ) (numZ 0) 60 (9 # 10))
    then Some (chalk (Styling := Ref.styling) blue [46%N])
    else if decide ((15%nat, 45%nat) ∈
                    handCells (H := Ref.floatQ) (numZ 0) 60 (3 # 4))
    then Some (chalk (Styling := Ref.styling) green_bold [0x25cf%N])
    else if decide ((15%nat, 45%nat) ∈
                    handCells (H := Ref.floatQ) (hourValue 0 0) 12 (1 # 2))
    then Some (chalk (Styling := Ref.styling) red_bold [0x2588%N])
    else cellAt emptyBoard 15 45.
Proof.
  apply (legacy_hands_precedence (H := Ref.styling) (H0 := Ref.floatQ)).
  exact boardShape_empty.
Defined.
